(** * Timeline normalisation and reviewer reconciliation (src/github/utils.ts)

    A shallow embedding of the pure part of [src/github/utils.ts]: the
    event-type classifier, the author and comment normalisers, the timeline
    normaliser, the reviewer-state reconciler, the commit-regrouping pass and
    the mergeability parser.

    Conventions of the embedding:
    - a JavaScript [string] is a [string] (a sequence of bytes), a [number]
      that holds a database id, a position or a count is a [Z];
    - a property that may be [null] or [undefined] is an [option];
    - a [TypeError] raised by reading a property of [undefined] is the
      [TypeError] outcome of the [Result] monad;
    - an array is a [list]; [Array.prototype.splice] is written with
      [take], [drop] and [delete];
    - a [Map<string, boolean>] is a [gmap string bool]. *)

From Stdlib Require Import ZArith.
From stdpp Require Import base list strings gmap sorting.

(** ** Outcomes: a value or a thrown [TypeError] *)

Inductive Result (A : Type) : Type :=
  | Ok (a : A)
  | TypeError.
Arguments Ok {A} a.
Arguments TypeError {A}.

#[global] Instance Result_ret : MRet Result := fun _ a => Ok a.
#[global] Instance Result_bind : MBind Result := fun _ _ k r =>
  match r with
  | Ok a => k a
  | TypeError => TypeError
  end.
#[global] Instance Result_fmap : FMap Result := fun _ _ f r =>
  match r with
  | Ok a => Ok (f a)
  | TypeError => TypeError
  end.

Definition isOk {A} (r : Result A) : bool :=
  match r with
  | Ok _ => true
  | TypeError => false
  end.

(** ** Enumerations *)

(** [Common.EventType] (declared in common/timelineEvent, of which the
    sources use the members below). *)
Module EventType.
Inductive t : Set :=
  | Committed
  | Labeled
  | Milestoned
  | Assigned
  | HeadRefDeleted
  | Commented
  | Reviewed
  | Merged
  | Other
  | NewCommitsSinceReview.

#[global] Instance eq_dec : EqDecision t.
Proof. solve_decision. Defined.
End EventType.

(** [PullRequestMergeability] (declared in github/interface). *)
Module PullRequestMergeability.
Inductive t : Set :=
  | Mergeable
  | NotMergeable
  | Conflict
  | Unknown
  | Behind.

#[global] Instance eq_dec : EqDecision t.
Proof. solve_decision. Defined.
End PullRequestMergeability.

(** The string-literal union ['UNKNOWN' | 'MERGEABLE' | 'CONFLICTING']. *)
Inductive Mergeable : Set :=
  | UNKNOWN
  | MERGEABLE
  | CONFLICTING.

(** The string-literal union of merge state statuses. *)
Inductive MergeStateStatus : Set :=
  | BEHIND
  | BLOCKED
  | CLEAN
  | DIRTY
  | HAS_HOOKS
  | STATUS_UNKNOWN
  | UNSTABLE.

(** ** Data model *)

(** [IAccount] (declared in github/interface): the identity key is [login];
    [avatarUrl], [email] and [name] are optional. *)
Module IAccount.
Record t : Set := mk {
  login : string;
  url : string;
  avatarUrl : option string;
  email : option string;
  name : option string;
}.

#[global] Instance eq_dec : EqDecision t.
Proof. solve_decision. Defined.
End IAccount.

(** Modelled from the spec: [ITeam] is declared in github/interface, which is
    not among the sources; a team is identified by its [name]. *)
Module ITeam.
Record t : Set := mk {
  name : string;
  avatarUrl : option string;
}.

#[global] Instance eq_dec : EqDecision t.
Proof. solve_decision. Defined.
End ITeam.

(** The union [IAccount | ITeam]. *)
Inductive Reviewer : Set :=
  | Account (account : IAccount.t)
  | Team (team : ITeam.t).

#[global] Instance Reviewer_eq_dec : EqDecision Reviewer.
Proof. solve_decision. Defined.

(** Modelled from the spec: [reviewerId] is imported from github/interface,
    which is not among the sources; the reviewer identity is the login for an
    account and the name for a team. *)
Definition reviewerId (reviewer : Reviewer) : string :=
  match reviewer with
  | Account account => IAccount.login account
  | Team team => ITeam.name team
  end.

(** Modelled from the spec: [reviewerLabel] is imported from
    github/interface, which is not among the sources; the display label of a
    reviewer is the login of an account and the name of a team. *)
Definition reviewerLabel (reviewer : Reviewer) : string :=
  match reviewer with
  | Account account => IAccount.login account
  | Team team => ITeam.name team
  end.

(** [ReviewState] (declared in github/interface). *)
Module ReviewState.
Record t : Set := mk {
  reviewer : Reviewer;
  state : string;
}.

#[global] Instance eq_dec : EqDecision t.
Proof. solve_decision. Defined.
End ReviewState.

(** Modelled from the spec: [DiffHunk] is declared in common/diffHunk, which
    is not among the sources; a hunk descriptor holds the old and new start
    and length of a span and its changed lines. *)
Inductive DiffChangeType : Set :=
  | Context
  | Add
  | Delete.

Module DiffLine.
Record t : Set := mk {
  type : DiffChangeType;
  oldLineNumber : Z;
  newLineNumber : Z;
}.
End DiffLine.

Module DiffHunk.
Record t : Set := mk {
  oldLineNumber : Z;
  oldLength : Z;
  newLineNumber : Z;
  newLength : Z;
  diffLines : list DiffLine.t;
}.
End DiffHunk.

(** An icon of [Resource.icons.reactions], named by its key. *)
Inductive Icon : Set :=
  | Resource_icons_reactions (key : string).

(** [Reaction] (declared in common/comment). *)
Module Reaction.
Record t : Set := mk {
  label : string;
  count : Z;
  icon : option Icon;
  viewerHasReacted : bool;
}.
End Reaction.

(** [IComment] (declared in common/comment), with the properties the two
    comment normalisers set. *)
Module IComment.
Record t : Set := mk {
  id : Z;
  url : string;
  body : string;
  bodyHTML : option string;
  path : option string;
  canEdit : option bool;
  canDelete : option bool;
  pullRequestReviewId : option Z;
  diffHunk : string;
  diffHunks : option (list DiffHunk.t);
  position : option Z;
  commitId : option string;
  originalPosition : option Z;
  originalCommitId : option string;
  user : option IAccount.t;
  createdAt : string;
  htmlUrl : string;
  graphNodeId : string;
  isDraft : option bool;
  inReplyToId : option Z;
  reactions : option (list Reaction.t);
  isResolved : option bool;
}.

(** The assignment [c.diffHunks = diffHunks]. *)
Definition set_diffHunks (c : t) (hunks : list DiffHunk.t) : t :=
  mk (id c) (url c) (body c) (bodyHTML c) (path c) (canEdit c) (canDelete c)
     (pullRequestReviewId c) (diffHunk c) (Some hunks) (position c)
     (commitId c) (originalPosition c) (originalCommitId c) (user c)
     (createdAt c) (htmlUrl c) (graphNodeId c) (isDraft c) (inReplyToId c)
     (reactions c) (isResolved c).
End IComment.

(** The result of [new Date(text)], kept as the text it was built from. *)
Inductive Date : Set :=
  | NewDate (text : string).

(** *** The graph-shaped input (github/graphql) *)

Module GraphQL.

Module ReactionUsers.
Record t : Set := mk { totalCount : Z }.
End ReactionUsers.

Module ReactionGroup.
Record t : Set := mk {
  content : string;
  viewerHasReacted : bool;
  users : ReactionUsers.t;
}.
End ReactionGroup.

(** An object read only for its [databaseId]. *)
Module DatabaseIdRef.
Record t : Set := mk { databaseId : Z }.
End DatabaseIdRef.

(** An object read only for its [oid]. *)
Module OidRef.
Record t : Set := mk { oid : string }.
End OidRef.

Module ReviewComment.
Record t : Set := mk {
  id : string;
  databaseId : Z;
  url : string;
  author : option IAccount.t;
  path : string;
  originalPosition : option Z;
  body : string;
  bodyHTML : string;
  diffHunk : string;
  position : option Z;
  state : string;
  pullRequestReview : option DatabaseIdRef.t;
  commit : OidRef.t;
  originalCommit : option OidRef.t;
  replyTo : option DatabaseIdRef.t;
  createdAt : string;
  viewerCanDelete : bool;
  reactionGroups : list ReactionGroup.t;
}.
End ReviewComment.

Module IssueComment.
Record t : Set := mk {
  id : string;
  databaseId : Z;
  url : string;
  author : option IAccount.t;
  body : string;
  bodyHTML : string;
  viewerCanUpdate : bool;
  viewerCanDelete : bool;
  createdAt : string;
}.
End IssueComment.

Module ReviewCommentConnection.
Record t : Set := mk { nodes : list ReviewComment.t }.
End ReviewCommentConnection.

Module SubmittedReview.
Record t : Set := mk {
  databaseId : Z;
  url : string;
  author : option IAccount.t;
  state : string;
  body : string;
  bodyHTML : string;
  submittedAt : string;
  authorAssociation : string;
  comments : ReviewCommentConnection.t;
}.
End SubmittedReview.

(** The [author] of the [commit] of a [GraphQL.Commit]. *)
Module CommitAuthor.
Record t : Set := mk {
  user : option IAccount.t;
  name : string;
  avatarUrl : string;
  email : string;
}.
End CommitAuthor.

(** The [commit] property of a [GraphQL.Commit] ([oid], [author], [message],
    [authoredDate]) and of a [GraphQL.MergedEvent] ([oid], [commitUrl]). *)
Module CommitNode.
Record t : Set := mk {
  oid : string;
  author : CommitAuthor.t;
  message : string;
  authoredDate : string;
  commitUrl : string;
}.
End CommitNode.

Module MergeRef.
Record t : Set := mk { name : string }.
End MergeRef.

(** One element of the [events] array of [parseGraphQLTimelineEvents]: the
    union [MergedEvent | Review | IssueComment | Commit | AssignedEvent |
    HeadRefDeletedEvent]. The function picks its branch by [__typename]
    alone and then reads the element through an unchecked cast, so an
    element is the record of the properties the function reads. *)
Module TimelineItem.
Record t : Set := mk {
  __typename : string;
  id : string;
  databaseId : Z;
  url : string;
  body : string;
  bodyHTML : string;
  author : option IAccount.t;
  actor : option IAccount.t;
  user : option IAccount.t;
  viewerCanUpdate : bool;
  viewerCanDelete : bool;
  createdAt : string;
  submittedAt : string;
  authorAssociation : string;
  state : string;
  commit : CommitNode.t;
  mergeRef : MergeRef.t;
  headRefName : string;
}.
End TimelineItem.

End GraphQL.

(** *** The canonical timeline (common/timelineEvent) *)

Module CommentEvent.
Record t : Set := mk {
  htmlUrl : string;
  body : string;
  bodyHTML : string;
  user : IAccount.t;
  canEdit : bool;
  canDelete : bool;
  id : Z;
  graphNodeId : string;
  createdAt : string;
}.
End CommentEvent.

Module ReviewEvent.
Record t : Set := mk {
  comments : list IComment.t;
  submittedAt : string;
  body : string;
  bodyHTML : string;
  htmlUrl : string;
  user : IAccount.t;
  authorAssociation : string;
  state : string;
  id : Z;
}.
End ReviewEvent.

Module CommitEvent.
Record t : Set := mk {
  id : string;
  sha : string;
  author : IAccount.t;
  htmlUrl : string;
  message : string;
  authoredDate : Date;
}.
End CommitEvent.

Module MergedEvent.
Record t : Set := mk {
  id : string;
  user : IAccount.t;
  createdAt : string;
  mergeRef : string;
  sha : string;
  commitUrl : string;
  url : string;
  graphNodeId : string;
}.
End MergedEvent.

Module AssignEvent.
Record t : Set := mk {
  id : string;
  user : IAccount.t;
  actor : IAccount.t;
}.
End AssignEvent.

Module HeadRefDeleteEvent.
Record t : Set := mk {
  id : string;
  actor : IAccount.t;
  createdAt : string;
  headRef : string;
}.
End HeadRefDeleteEvent.

Module NewCommitsSinceReviewEvent.
Record t : Set := mk { id : string }.
End NewCommitsSinceReviewEvent.

(** [Common.TimelineEvent]: a union tagged by its [event] property. *)
Inductive TimelineEvent : Set :=
  | EvCommented (e : CommentEvent.t)
  | EvReviewed (e : ReviewEvent.t)
  | EvCommitted (e : CommitEvent.t)
  | EvMerged (e : MergedEvent.t)
  | EvAssigned (e : AssignEvent.t)
  | EvHeadRefDeleted (e : HeadRefDeleteEvent.t)
  | EvNewCommitsSinceReview (e : NewCommitsSinceReviewEvent.t).

(** The [event] property. *)
Definition event (e : TimelineEvent) : EventType.t :=
  match e with
  | EvCommented _ => EventType.Commented
  | EvReviewed _ => EventType.Reviewed
  | EvCommitted _ => EventType.Committed
  | EvMerged _ => EventType.Merged
  | EvAssigned _ => EventType.Assigned
  | EvHeadRefDeleted _ => EventType.HeadRefDeleted
  | EvNewCommitsSinceReview _ => EventType.NewCommitsSinceReview
  end.

(** [GitHubRef] (declared in common/githubRef), read for its [sha]. *)
Module GitHubRef.
Record t : Set := mk {
  ref : string;
  label : string;
  sha : string;
}.
End GitHubRef.

(** ** Event-type classifier *)

(** [switch (text)] compares with [===], case by case from the top. *)
Definition convertGraphQLEventType (text : string) : EventType.t :=
  if (text =? "PullRequestCommit")%string then EventType.Committed
  else if (text =? "LabeledEvent")%string then EventType.Labeled
  else if (text =? "MilestonedEvent")%string then EventType.Milestoned
  else if (text =? "AssignedEvent")%string then EventType.Assigned
  else if (text =? "HeadRefDeletedEvent")%string then EventType.HeadRefDeleted
  else if (text =? "IssueComment")%string then EventType.Commented
  else if (text =? "PullRequestReview")%string then EventType.Reviewed
  else if (text =? "MergedEvent")%string then EventType.Merged
  else EventType.Other.

(** The discriminators the classifier knows, each with the kind it stands
    for. *)
Definition knownDiscriminators : list (string * EventType.t) :=
  [ ("PullRequestCommit", EventType.Committed);
    ("LabeledEvent", EventType.Labeled);
    ("MilestonedEvent", EventType.Milestoned);
    ("AssignedEvent", EventType.Assigned);
    ("HeadRefDeletedEvent", EventType.HeadRefDeleted);
    ("IssueComment", EventType.Commented);
    ("PullRequestReview", EventType.Reviewed);
    ("MergedEvent", EventType.Merged) ].

(** ** Mergeability parser *)

Definition parseMergeability (mergeability : Mergeable)
    (mergeStateStatus : MergeStateStatus) : PullRequestMergeability.t :=
  let parsed :=
    match mergeability with
    | UNKNOWN => PullRequestMergeability.Unknown
    | MERGEABLE => PullRequestMergeability.Mergeable
    | CONFLICTING => PullRequestMergeability.Conflict
    end in
  if bool_decide (parsed ≠ PullRequestMergeability.Conflict) then
    match mergeStateStatus with
    | BLOCKED => PullRequestMergeability.NotMergeable
    | BEHIND => PullRequestMergeability.Behind
    | _ => parsed
    end
  else parsed.

(** The base mapping of the specification, before any override. *)
Definition baseMergeability (mergeability : Mergeable) : PullRequestMergeability.t :=
  match mergeability with
  | UNKNOWN => PullRequestMergeability.Unknown
  | MERGEABLE => PullRequestMergeability.Mergeable
  | CONFLICTING => PullRequestMergeability.Conflict
  end.

(** ** Author normaliser *)

(** [if (author)] holds for every object and fails for [null]. *)
Definition parseAuthor (author : option IAccount.t) : IAccount.t :=
  match author with
  | Some author =>
      {| IAccount.login := IAccount.login author;
         IAccount.url := IAccount.url author;
         IAccount.avatarUrl := IAccount.avatarUrl author;
         IAccount.email := IAccount.email author;
         IAccount.name := None |}
  | None =>
      {| IAccount.login := "";
         IAccount.url := "";
         IAccount.avatarUrl := None;
         IAccount.email := None;
         IAccount.name := None |}
  end.

(** ** Reactions *)

Module ReactionInfo.
Record t : Set := mk {
  title : string;
  label : string;
  icon : option Icon;
}.
End ReactionInfo.

Definition getReactionGroup : list ReactionInfo.t :=
  [ ReactionInfo.mk "THUMBS_UP" "👍" (Some (Resource_icons_reactions "THUMBS_UP"));
    ReactionInfo.mk "THUMBS_DOWN" "👎" (Some (Resource_icons_reactions "THUMBS_DOWN"));
    ReactionInfo.mk "LAUGH" "😄" (Some (Resource_icons_reactions "LAUGH"));
    ReactionInfo.mk "HOORAY" "🎉" (Some (Resource_icons_reactions "HOORAY"));
    ReactionInfo.mk "CONFUSED" "😕" (Some (Resource_icons_reactions "CONFUSED"));
    ReactionInfo.mk "HEART" "❤️" (Some (Resource_icons_reactions "HEART"));
    ReactionInfo.mk "ROCKET" "🚀" (Some (Resource_icons_reactions "ROCKET"));
    ReactionInfo.mk "EYES" "👀" (Some (Resource_icons_reactions "EYES")) ].

(** The object built by [reduce], keyed by title (the properties every
    object inherits from [Object.prototype] are left out). *)
Definition reactionContentEmojiMapping : gmap string ReactionInfo.t :=
  foldl (fun prev curr => <[ReactionInfo.title curr := curr]> prev) ∅
        getReactionGroup.

(** Reading [.label] of a content that has no entry raises a [TypeError]. *)
Definition parseGraphQLReaction (reactionGroups : list GraphQL.ReactionGroup.t)
    : Result (list Reaction.t) :=
  mapM (fun group =>
          match reactionContentEmojiMapping !! GraphQL.ReactionGroup.content group with
          | Some info =>
              Ok {| Reaction.label := ReactionInfo.label info;
                    Reaction.count :=
                      GraphQL.ReactionUsers.totalCount (GraphQL.ReactionGroup.users group);
                    Reaction.icon := ReactionInfo.icon info;
                    Reaction.viewerHasReacted :=
                      GraphQL.ReactionGroup.viewerHasReacted group |}
          | None => TypeError
          end)
       (filter (fun group =>
                  0 < GraphQL.ReactionUsers.totalCount (GraphQL.ReactionGroup.users group))%Z
               reactionGroups).

(** ** Comment normaliser *)

(** Truthiness of a [number | null | undefined] property. *)
Definition truthy (n : option Z) : bool :=
  match n with
  | Some n => negb (n =? 0)%Z
  | None => false
  end.

Section CommentNormaliser.

(** [parseDiffHunk] (common/diffHunk) is not among the sources: the finite
    sequence of hunks its iterator yields for a text is a parameter. *)
Variable parseDiffHunk : string → list DiffHunk.t.

(** The [while] loop drains the iterator, pushing each hunk. *)
Definition parseCommentDiffHunk (comment : IComment.t) : list DiffHunk.t :=
  foldl (fun diffHunks diffHunk => diffHunks ++ [diffHunk]) []
        (parseDiffHunk (IComment.diffHunk comment)).

Definition parseGraphQLComment (comment : GraphQL.ReviewComment.t)
    (isResolved : bool) : Result IComment.t :=
  reactions ← parseGraphQLReaction (GraphQL.ReviewComment.reactionGroups comment);
  let c :=
    {| IComment.id := GraphQL.ReviewComment.databaseId comment;
       IComment.url := GraphQL.ReviewComment.url comment;
       IComment.body := GraphQL.ReviewComment.body comment;
       IComment.bodyHTML := Some (GraphQL.ReviewComment.bodyHTML comment);
       IComment.path := Some (GraphQL.ReviewComment.path comment);
       IComment.canEdit := Some (GraphQL.ReviewComment.viewerCanDelete comment);
       IComment.canDelete := Some (GraphQL.ReviewComment.viewerCanDelete comment);
       IComment.pullRequestReviewId :=
         GraphQL.DatabaseIdRef.databaseId <$> GraphQL.ReviewComment.pullRequestReview comment;
       IComment.diffHunk := GraphQL.ReviewComment.diffHunk comment;
       IComment.diffHunks := None;
       IComment.position := GraphQL.ReviewComment.position comment;
       IComment.commitId :=
         Some (GraphQL.OidRef.oid (GraphQL.ReviewComment.commit comment));
       IComment.originalPosition := GraphQL.ReviewComment.originalPosition comment;
       IComment.originalCommitId :=
         GraphQL.OidRef.oid <$> GraphQL.ReviewComment.originalCommit comment;
       IComment.user :=
         match GraphQL.ReviewComment.author comment with
         | Some author => Some (parseAuthor (Some author))
         | None => None
         end;
       IComment.createdAt := GraphQL.ReviewComment.createdAt comment;
       IComment.htmlUrl := GraphQL.ReviewComment.url comment;
       IComment.graphNodeId := GraphQL.ReviewComment.id comment;
       IComment.isDraft :=
         Some (GraphQL.ReviewComment.state comment =? "PENDING")%string;
       IComment.inReplyToId :=
         GraphQL.DatabaseIdRef.databaseId <$> GraphQL.ReviewComment.replyTo comment;
       IComment.reactions := Some reactions;
       IComment.isResolved := Some isResolved |} in
  let diffHunks := parseCommentDiffHunk c in
  mret (IComment.set_diffHunks c diffHunks).

Definition parseGraphQlIssueComment (comment : GraphQL.IssueComment.t) : IComment.t :=
  {| IComment.id := GraphQL.IssueComment.databaseId comment;
     IComment.url := GraphQL.IssueComment.url comment;
     IComment.body := GraphQL.IssueComment.body comment;
     IComment.bodyHTML := Some (GraphQL.IssueComment.bodyHTML comment);
     IComment.path := None;
     IComment.canEdit := Some (GraphQL.IssueComment.viewerCanDelete comment);
     IComment.canDelete := Some (GraphQL.IssueComment.viewerCanDelete comment);
     IComment.pullRequestReviewId := None;
     IComment.diffHunk := "";
     IComment.diffHunks := None;
     IComment.position := None;
     IComment.commitId := None;
     IComment.originalPosition := None;
     IComment.originalCommitId := None;
     IComment.user := Some (parseAuthor (GraphQL.IssueComment.author comment));
     IComment.createdAt := GraphQL.IssueComment.createdAt comment;
     IComment.htmlUrl := GraphQL.IssueComment.url comment;
     IComment.graphNodeId := GraphQL.IssueComment.id comment;
     IComment.isDraft := None;
     IComment.inReplyToId := None;
     IComment.reactions := None;
     IComment.isResolved := None |}.

(** ** Review event *)

(** [nodes.map(...)] normalises every comment, left to right, before
    [filter] keeps those whose [inReplyToId] is falsy. *)
Definition parseGraphQLReviewEvent (review : GraphQL.SubmittedReview.t)
    : Result ReviewEvent.t :=
  parsed ← mapM (fun comment => parseGraphQLComment comment false)
             (GraphQL.ReviewCommentConnection.nodes
                (GraphQL.SubmittedReview.comments review));
  mret {| ReviewEvent.comments :=
            filter (fun c => negb (truthy (IComment.inReplyToId c))) parsed;
          ReviewEvent.submittedAt := GraphQL.SubmittedReview.submittedAt review;
          ReviewEvent.body := GraphQL.SubmittedReview.body review;
          ReviewEvent.bodyHTML := GraphQL.SubmittedReview.bodyHTML review;
          ReviewEvent.htmlUrl := GraphQL.SubmittedReview.url review;
          ReviewEvent.user := parseAuthor (GraphQL.SubmittedReview.author review);
          ReviewEvent.authorAssociation :=
            GraphQL.SubmittedReview.authorAssociation review;
          ReviewEvent.state := GraphQL.SubmittedReview.state review;
          ReviewEvent.id := GraphQL.SubmittedReview.databaseId review |}.

End CommentNormaliser.

(** ** Timeline normaliser *)

(** The body of the [for ... of] loop: the [switch] on the classified kind
    pushes one event in six of its cases and has no other case. *)
Definition pushNormalizedEvent (normalizedEvents : list TimelineEvent)
    (event : GraphQL.TimelineItem.t) : list TimelineEvent :=
  let type := convertGraphQLEventType (GraphQL.TimelineItem.__typename event) in
  match type with
  | EventType.Commented =>
      normalizedEvents ++
      [EvCommented
         {| CommentEvent.htmlUrl := GraphQL.TimelineItem.url event;
            CommentEvent.body := GraphQL.TimelineItem.body event;
            CommentEvent.bodyHTML := GraphQL.TimelineItem.bodyHTML event;
            CommentEvent.user := parseAuthor (GraphQL.TimelineItem.author event);
            CommentEvent.canEdit := GraphQL.TimelineItem.viewerCanUpdate event;
            CommentEvent.canDelete := GraphQL.TimelineItem.viewerCanDelete event;
            CommentEvent.id := GraphQL.TimelineItem.databaseId event;
            CommentEvent.graphNodeId := GraphQL.TimelineItem.id event;
            CommentEvent.createdAt := GraphQL.TimelineItem.createdAt event |}]
  | EventType.Reviewed =>
      normalizedEvents ++
      [EvReviewed
         {| ReviewEvent.comments := [];
            ReviewEvent.submittedAt := GraphQL.TimelineItem.submittedAt event;
            ReviewEvent.body := GraphQL.TimelineItem.body event;
            ReviewEvent.bodyHTML := GraphQL.TimelineItem.bodyHTML event;
            ReviewEvent.htmlUrl := GraphQL.TimelineItem.url event;
            ReviewEvent.user := parseAuthor (GraphQL.TimelineItem.author event);
            ReviewEvent.authorAssociation :=
              GraphQL.TimelineItem.authorAssociation event;
            ReviewEvent.state := GraphQL.TimelineItem.state event;
            ReviewEvent.id := GraphQL.TimelineItem.databaseId event |}]
  | EventType.Committed =>
      let commit := GraphQL.TimelineItem.commit event in
      let author := GraphQL.CommitNode.author commit in
      normalizedEvents ++
      [EvCommitted
         {| CommitEvent.id := GraphQL.TimelineItem.id event;
            CommitEvent.sha := GraphQL.CommitNode.oid commit;
            CommitEvent.author :=
              match GraphQL.CommitAuthor.user author with
              | Some user => parseAuthor (Some user)
              | None =>
                  parseAuthor
                    (Some {| IAccount.login := GraphQL.CommitAuthor.name author;
                             IAccount.avatarUrl :=
                               Some (GraphQL.CommitAuthor.avatarUrl author);
                             IAccount.email := Some (GraphQL.CommitAuthor.email author);
                             IAccount.url := "";
                             IAccount.name := None |})
              end;
            CommitEvent.htmlUrl := GraphQL.TimelineItem.url event;
            CommitEvent.message := GraphQL.CommitNode.message commit;
            CommitEvent.authoredDate :=
              NewDate (GraphQL.CommitNode.authoredDate commit) |}]
  | EventType.Merged =>
      normalizedEvents ++
      [EvMerged
         {| MergedEvent.id := GraphQL.TimelineItem.id event;
            MergedEvent.user := parseAuthor (GraphQL.TimelineItem.actor event);
            MergedEvent.createdAt := GraphQL.TimelineItem.createdAt event;
            MergedEvent.mergeRef :=
              GraphQL.MergeRef.name (GraphQL.TimelineItem.mergeRef event);
            MergedEvent.sha :=
              GraphQL.CommitNode.oid (GraphQL.TimelineItem.commit event);
            MergedEvent.commitUrl :=
              GraphQL.CommitNode.commitUrl (GraphQL.TimelineItem.commit event);
            MergedEvent.url := GraphQL.TimelineItem.url event;
            MergedEvent.graphNodeId := GraphQL.TimelineItem.id event |}]
  | EventType.Assigned =>
      normalizedEvents ++
      [EvAssigned
         {| AssignEvent.id := GraphQL.TimelineItem.id event;
            AssignEvent.user := parseAuthor (GraphQL.TimelineItem.user event);
            AssignEvent.actor := parseAuthor (GraphQL.TimelineItem.actor event) |}]
  | EventType.HeadRefDeleted =>
      normalizedEvents ++
      [EvHeadRefDeleted
         {| HeadRefDeleteEvent.id := GraphQL.TimelineItem.id event;
            HeadRefDeleteEvent.actor := parseAuthor (GraphQL.TimelineItem.actor event);
            HeadRefDeleteEvent.createdAt := GraphQL.TimelineItem.createdAt event;
            HeadRefDeleteEvent.headRef := GraphQL.TimelineItem.headRefName event |}]
  | _ => normalizedEvents
  end.

Definition parseGraphQLTimelineEvents (events : list GraphQL.TimelineItem.t)
    : list TimelineEvent :=
  foldl pushNormalizedEvent [] events.

(** The kinds for which the [switch] of [parseGraphQLTimelineEvents] has a
    case. *)
Definition hasCase (type : EventType.t) : bool :=
  match type with
  | EventType.Commented | EventType.Reviewed | EventType.Committed
  | EventType.Merged | EventType.Assigned | EventType.HeadRefDeleted => true
  | _ => false
  end.

(** An element that carries nothing but its discriminator: every other
    property is empty. *)
Definition bareTimelineItem (typename : string) : GraphQL.TimelineItem.t :=
  {| GraphQL.TimelineItem.__typename := typename;
     GraphQL.TimelineItem.id := "";
     GraphQL.TimelineItem.databaseId := 0;
     GraphQL.TimelineItem.url := "";
     GraphQL.TimelineItem.body := "";
     GraphQL.TimelineItem.bodyHTML := "";
     GraphQL.TimelineItem.author := None;
     GraphQL.TimelineItem.actor := None;
     GraphQL.TimelineItem.user := None;
     GraphQL.TimelineItem.viewerCanUpdate := false;
     GraphQL.TimelineItem.viewerCanDelete := false;
     GraphQL.TimelineItem.createdAt := "";
     GraphQL.TimelineItem.submittedAt := "";
     GraphQL.TimelineItem.authorAssociation := "";
     GraphQL.TimelineItem.state := "";
     GraphQL.TimelineItem.commit :=
       GraphQL.CommitNode.mk "" (GraphQL.CommitAuthor.mk None "" "" "") "" "" "";
     GraphQL.TimelineItem.mergeRef := GraphQL.MergeRef.mk "";
     GraphQL.TimelineItem.headRefName := "" |}.

(** The classified kind of a raw element. *)
Definition classify (item : GraphQL.TimelineItem.t) : EventType.t :=
  convertGraphQLEventType (GraphQL.TimelineItem.__typename item).

(** The ghost account that stands for an absent author. *)
Definition ghost : IAccount.t :=
  {| IAccount.login := "";
     IAccount.url := "";
     IAccount.avatarUrl := None;
     IAccount.email := None;
     IAccount.name := None |}.

(** A review comment on [README.md] with the given database id, author and
    reply target, and no reaction. *)
Definition reviewCommentOf (databaseId : Z) (author : option IAccount.t)
    (replyTo : option GraphQL.DatabaseIdRef.t) : GraphQL.ReviewComment.t :=
  {| GraphQL.ReviewComment.id := "PRRC_1";
     GraphQL.ReviewComment.databaseId := databaseId;
     GraphQL.ReviewComment.url := "";
     GraphQL.ReviewComment.author := author;
     GraphQL.ReviewComment.path := "README.md";
     GraphQL.ReviewComment.originalPosition := None;
     GraphQL.ReviewComment.body := "";
     GraphQL.ReviewComment.bodyHTML := "";
     GraphQL.ReviewComment.diffHunk := "";
     GraphQL.ReviewComment.position := None;
     GraphQL.ReviewComment.state := "SUBMITTED";
     GraphQL.ReviewComment.pullRequestReview := None;
     GraphQL.ReviewComment.commit := GraphQL.OidRef.mk "c0ffee";
     GraphQL.ReviewComment.originalCommit := None;
     GraphQL.ReviewComment.replyTo := replyTo;
     GraphQL.ReviewComment.createdAt := "";
     GraphQL.ReviewComment.viewerCanDelete := false;
     GraphQL.ReviewComment.reactionGroups := [] |}.

(** A submitted review by nobody with the given comments. *)
Definition submittedReviewOf (comments : list GraphQL.ReviewComment.t)
    : GraphQL.SubmittedReview.t :=
  {| GraphQL.SubmittedReview.databaseId := 1;
     GraphQL.SubmittedReview.url := "";
     GraphQL.SubmittedReview.author := None;
     GraphQL.SubmittedReview.state := "COMMENTED";
     GraphQL.SubmittedReview.body := "";
     GraphQL.SubmittedReview.bodyHTML := "";
     GraphQL.SubmittedReview.submittedAt := "";
     GraphQL.SubmittedReview.authorAssociation := "";
     GraphQL.SubmittedReview.comments := GraphQL.ReviewCommentConnection.mk comments |}.

(** A raw issue comment with the given author. *)
Definition issueCommentOf (author : option IAccount.t) : GraphQL.IssueComment.t :=
  {| GraphQL.IssueComment.id := "IC_1";
     GraphQL.IssueComment.databaseId := 1;
     GraphQL.IssueComment.url := "";
     GraphQL.IssueComment.author := author;
     GraphQL.IssueComment.body := "";
     GraphQL.IssueComment.bodyHTML := "";
     GraphQL.IssueComment.viewerCanUpdate := false;
     GraphQL.IssueComment.viewerCanDelete := false;
     GraphQL.IssueComment.createdAt := "" |}.

(** A review comment has no reply target the filter of
    [parseGraphQLReviewEvent] can see: [replyTo] is absent, or its database id
    is the falsy number 0. *)
Definition noVisibleReplyTarget (comment : GraphQL.ReviewComment.t) : bool :=
  match GraphQL.ReviewComment.replyTo comment with
  | None => true
  | Some target => (GraphQL.DatabaseIdRef.databaseId target =? 0)%Z
  end.

(** Every reaction group with users names a reaction of [getReactionGroup]. *)
Definition reactionsKnown (comment : GraphQL.ReviewComment.t) : Prop :=
  Forall (λ group,
            (0 < GraphQL.ReactionUsers.totalCount (GraphQL.ReactionGroup.users group))%Z →
            is_Some (reactionContentEmojiMapping !! GraphQL.ReactionGroup.content group))
         (GraphQL.ReviewComment.reactionGroups comment).

(** The raw comments of a submitted review, [review.comments.nodes]. *)
Definition reviewNodes (review : GraphQL.SubmittedReview.t)
    : list GraphQL.ReviewComment.t :=
  GraphQL.ReviewCommentConnection.nodes (GraphQL.SubmittedReview.comments review).

(** ** Reviewer-state reconciler *)

(** Truthiness of [seen.get(key)]. *)
Definition seenGet (seen : gmap string bool) (key : string) : bool :=
  default false (seen !! key).

(** The type guard [e.event === Common.EventType.Reviewed]. *)
Definition asReviewEvent (e : TimelineEvent) : option ReviewEvent.t :=
  match e with
  | EvReviewed review => Some review
  | _ => None
  end.

(** One turn of the loop over the review events, which runs from the last
    index down to 0. *)
Definition noteReview (review : ReviewEvent.t)
    (acc : gmap string bool * list ReviewState.t)
    : gmap string bool * list ReviewState.t :=
  let '(seen, reviewers) := acc in
  let reviewer := ReviewEvent.user review in
  if negb (seenGet seen (IAccount.login reviewer)) then
    (<[IAccount.login reviewer := true]> seen,
     reviewers ++ [ReviewState.mk (Account reviewer) (ReviewEvent.state review)])
  else (seen, reviewers).

(** One call of the [forEach] callback: [find] gives the first entry of the
    reviewer, whose [state] is assigned in place; assigning to the [state]
    of [undefined] raises a [TypeError]. *)
Definition noteRequest (seen : gmap string bool) (reviewers : list ReviewState.t)
    (request : Reviewer) : Result (list ReviewState.t) :=
  if negb (seenGet seen (reviewerId request)) then
    Ok (reviewers ++ [ReviewState.mk request "REQUESTED"])
  else
    match list_find (λ r, reviewerId (ReviewState.reviewer r) = reviewerId request)
                    reviewers with
    | Some (i, reviewer) =>
        Ok (<[i := ReviewState.mk (ReviewState.reviewer reviewer) "REQUESTED"]> reviewers)
    | None => TypeError
    end.

Fixpoint forEachRequest (seen : gmap string bool) (requestedReviewers : list Reviewer)
    (reviewers : list ReviewState.t) : Result (list ReviewState.t) :=
  match requestedReviewers with
  | [] => Ok reviewers
  | request :: rest =>
      reviewers ← noteRequest seen reviewers request;
      forEachRequest seen rest reviewers
  end.

(** [toLowerCase] on the letters A to Z; other bytes are kept. *)
Definition toLowerCaseAscii (c : Ascii.ascii) : Ascii.ascii :=
  let n := Ascii.nat_of_ascii c in
  if (65 <=? n)%nat && (n <=? 90)%nat then Ascii.ascii_of_nat (n + 32) else c.

Fixpoint toLowerCase (text : string) : string :=
  match text with
  | EmptyString => EmptyString
  | String c rest => String (toLowerCaseAscii c) (toLowerCase rest)
  end.

(** The comparator handed to [sort]: completed reviews before review
    requests, each section by lower-cased label. *)
Definition compareReviewState (a b : ReviewState.t) : Z :=
  if bool_decide (ReviewState.state a = "REQUESTED" ∧ ReviewState.state b ≠ "REQUESTED")
  then 1
  else if bool_decide (ReviewState.state b = "REQUESTED" ∧ ReviewState.state a ≠ "REQUESTED")
  then -1
  else if String.ltb (toLowerCase (reviewerLabel (ReviewState.reviewer a)))
                     (toLowerCase (reviewerLabel (ReviewState.reviewer b)))
  then -1
  else 1.

(** [Array.prototype.sort] as a stable insertion sort: an element goes in
    front of the first one the comparator puts it strictly before. *)
Fixpoint sortInsert {A} (compare : A → A → Z) (x : A) (sorted : list A) : list A :=
  match sorted with
  | [] => [x]
  | y :: rest =>
      if (compare x y <? 0)%Z then x :: y :: rest
      else y :: sortInsert compare x rest
  end.

Definition sort {A} (compare : A → A → Z) (array : list A) : list A :=
  foldl (λ sorted x, sortInsert compare x sorted) [] array.

Definition parseReviewers (requestedReviewers : list Reviewer)
    (timelineEvents : list TimelineEvent) (author : IAccount.t)
    : Result (list ReviewState.t) :=
  let reviewEvents :=
    filter (λ event, ReviewEvent.state event ≠ "PENDING")
           (omap asReviewEvent timelineEvents) in
  let '(seen, reviewers) :=
    foldr noteReview (<[IAccount.login author := true]> ∅, []) reviewEvents in
  reviewers ← forEachRequest seen requestedReviewers reviewers;
  mret (sort compareReviewState reviewers).

(** The reviewer identities of a list of review states. *)
Definition reviewerIds (reviewers : list ReviewState.t) : list string :=
  (λ r, reviewerId (ReviewState.reviewer r)) <$> reviewers.

(** What the loop over the review events establishes: the seen keys are the
    author's login and the identities pushed so far, which are pairwise
    distinct and differ from the author's login. *)
Definition reviewsNoted (author : string)
    (acc : gmap string bool * list ReviewState.t) : Prop :=
  (∀ k, seenGet acc.1 k = true ↔ k = author ∨ k ∈ reviewerIds acc.2) ∧
  NoDup (reviewerIds acc.2) ∧
  author ∉ reviewerIds acc.2.

(** The account with the given login and no other data. *)
Definition accountOf (login : string) : IAccount.t :=
  {| IAccount.login := login;
     IAccount.url := "";
     IAccount.avatarUrl := None;
     IAccount.email := None;
     IAccount.name := None |}.

(** A review event by [login] with the given state. *)
Definition reviewBy (login state : string) : TimelineEvent :=
  EvReviewed
    {| ReviewEvent.comments := [];
       ReviewEvent.submittedAt := "";
       ReviewEvent.body := "";
       ReviewEvent.bodyHTML := "";
       ReviewEvent.htmlUrl := "";
       ReviewEvent.user := accountOf login;
       ReviewEvent.authorAssociation := "";
       ReviewEvent.state := state;
       ReviewEvent.id := 0 |}.

(** A commit event with the given sha. *)
Definition commitOf (sha : string) : TimelineEvent :=
  EvCommitted
    {| CommitEvent.id := "";
       CommitEvent.sha := sha;
       CommitEvent.author := accountOf "";
       CommitEvent.htmlUrl := "";
       CommitEvent.message := "";
       CommitEvent.authoredDate := NewDate "" |}.

(** ** Commit-regrouping pass *)

(** The local variables of the scan, with the array it mutates. *)
Module Regrouping.
Record t : Set := mk {
  timelineEvents : list TimelineEvent;
  lastViewerReviewIndex : Z;
  comittedDuringReview : bool;
  interReviewCommits : list TimelineEvent;
}.
End Regrouping.

(** [array.splice(start, 0, ...items)] for [0 <= start]: a start beyond the
    end is clamped to the length. *)
Definition spliceInsert {A} (array : list A) (start : Z) (items : list A) : list A :=
  take (Z.to_nat start) array ++ items ++ drop (Z.to_nat start) array.

(** [timelineEvents[i].event === Committed && timelineEvents[i].sha === oid] *)
Definition isCommitOf (latestReviewCommitOid : string) (e : TimelineEvent) : bool :=
  match e with
  | EvCommitted commit => (CommitEvent.sha commit =? latestReviewCommitOid)%string
  | _ => false
  end.

(** [timelineEvents[i].event === Reviewed && timelineEvents[i].user.login ===
    currentUser] *)
Definition isReviewBy (currentUser : string) (e : TimelineEvent) : bool :=
  match e with
  | EvReviewed review =>
      (IAccount.login (ReviewEvent.user review) =? currentUser)%string
  | _ => false
  end.

(** The loop [for (let i = n; i > 0; i--)], entered with [i = n]: each turn
    reads [timelineEvents[i]]; [break] ends the scan. *)
Fixpoint scanTimeline (latestReviewCommitOid currentUser : string) (i : nat)
    (st : Regrouping.t) : Result (list TimelineEvent) :=
  match i with
  | O => Ok (Regrouping.timelineEvents st)
  | S i' =>
      match Regrouping.timelineEvents st !! i with
      | None => TypeError
      | Some e =>
          if isCommitOf latestReviewCommitOid e then
            let interReviewCommits :=
              EvNewCommitsSinceReview (NewCommitsSinceReviewEvent.mk latestReviewCommitOid)
                :: Regrouping.interReviewCommits st in
            Ok (spliceInsert (Regrouping.timelineEvents st)
                             (Regrouping.lastViewerReviewIndex st + 1)
                             interReviewCommits)
          else if Regrouping.comittedDuringReview st
                  && bool_decide (event e = EventType.Committed) then
            scanTimeline latestReviewCommitOid currentUser i'
              (Regrouping.mk (delete i (Regrouping.timelineEvents st))
                             (Regrouping.lastViewerReviewIndex st)
                             (Regrouping.comittedDuringReview st)
                             (e :: Regrouping.interReviewCommits st))
          else if negb (Regrouping.comittedDuringReview st)
                  && isReviewBy currentUser e then
            scanTimeline latestReviewCommitOid currentUser i'
              (Regrouping.mk (Regrouping.timelineEvents st)
                             (Z.of_nat i)
                             true
                             (Regrouping.interReviewCommits st))
          else scanTimeline latestReviewCommitOid currentUser i' st
      end
  end.

(** The array after the call. The guard is
    [latestReviewCommitOid && head && head.sha !== latestReviewCommitOid]:
    an undefined or empty oid and a null head are falsy. *)
Definition insertNewCommitsSinceReview (timelineEvents : list TimelineEvent)
    (latestReviewCommitOid : option string) (currentUser : string)
    (head : option GitHubRef.t) : Result (list TimelineEvent) :=
  match latestReviewCommitOid, head with
  | Some oid, Some head =>
      if negb (oid =? "")%string && negb (GitHubRef.sha head =? oid)%string then
        scanTimeline oid currentUser
          (Z.to_nat (Z.of_nat (length timelineEvents) - 1))
          (Regrouping.mk timelineEvents
                         (Z.of_nat (length timelineEvents) - 1)
                         false
                         [])
      else Ok timelineEvents
  | _, _ => Ok timelineEvents
  end.

(** The marker event with the given id. *)
Definition newCommitsMarker (id : string) : TimelineEvent :=
  EvNewCommitsSinceReview (NewCommitsSinceReviewEvent.mk id).

(** A head ref with the given sha. *)
Definition headAt (sha : string) : GitHubRef.t :=
  {| GitHubRef.ref := "topic"; GitHubRef.label := "owner:topic"; GitHubRef.sha := sha |}.

(** ** Further definitions for the regrouping pass *)

(** [timelineEvents[i].event === Committed] *)
Definition isCommitted (e : TimelineEvent) : bool :=
  bool_decide (event e = EventType.Committed).

(** [timelineEvents[i].event === NewCommitsSinceReview] *)
Definition isMarker (e : TimelineEvent) : bool :=
  bool_decide (event e = EventType.NewCommitsSinceReview).

(** An event the scan passes over while no review of the viewer is noted:
    neither the commit of the captured oid nor a review by the viewer. *)
Definition passedOver (latestReviewCommitOid currentUser : string)
    (e : TimelineEvent) : Prop :=
  isCommitOf latestReviewCommitOid e = false ∧ isReviewBy currentUser e = false.

(** ** Further definitions for the reviewer-state reconciler *)


(** The reviews the reconciler looks at: the review events that are not
    pending, in timeline order. *)
Definition submittedReviews (timelineEvents : list TimelineEvent)
    : list ReviewEvent.t :=
  filter (λ event, ReviewEvent.state event ≠ "PENDING")
         (omap asReviewEvent timelineEvents).

(** The entry a review gives its reviewer. *)
Definition reviewEntry (review : ReviewEvent.t) : ReviewState.t :=
  ReviewState.mk (Account (ReviewEvent.user review)) (ReviewEvent.state review).

(** The most recent of the reviews by the given login. *)
Definition latestReviewBy (login : string) (reviews : list ReviewEvent.t)
    : option ReviewEvent.t :=
  last (filter (λ review, IAccount.login (ReviewEvent.user review) = login) reviews).

(** A reviewer identity has an entry that is a review request. *)
Definition hasRequest (id : string) (reviewers : list ReviewState.t) : Prop :=
  ∃ entry, entry ∈ reviewers ∧
           reviewerId (ReviewState.reviewer entry) = id ∧
           ReviewState.state entry = "REQUESTED".

(** ** Review threads *)

(** [SubjectType] (declared in common/comment). *)
Inductive SubjectType : Set :=
  | LINE
  | FILE.

#[global] Instance SubjectType_eq_dec : EqDecision SubjectType.
Proof. solve_decision. Defined.

(** [IReviewThread] (declared in common/comment). *)
Module IReviewThread.
Record t : Set := mk {
  id : string;
  prReviewDatabaseId : option Z;
  isResolved : bool;
  viewerCanResolve : bool;
  viewerCanUnresolve : bool;
  path : string;
  startLine : Z;
  endLine : Z;
  originalStartLine : Z;
  originalEndLine : Z;
  diffSide : string;
  isOutdated : bool;
  comments : list IComment.t;
  subjectType : SubjectType;
}.
End IReviewThread.

(** One element of [thread.comments.edges]:
    [{node: {pullRequestReview: {databaseId}}}]. *)
Module ReviewThreadEdgeNode.
Record t : Set := mk { pullRequestReview : GraphQL.DatabaseIdRef.t }.
End ReviewThreadEdgeNode.

Module ReviewThreadEdge.
Record t : Set := mk { node : ReviewThreadEdgeNode.t }.
End ReviewThreadEdge.

Module ReviewThreadComments.
Record t : Set := mk {
  nodes : list GraphQL.ReviewComment.t;
  edges : option (list ReviewThreadEdge.t);
}.
End ReviewThreadComments.

(** [GraphQL.ReviewThread] (declared in github/graphql). *)
Module ReviewThread.
Record t : Set := mk {
  id : string;
  isResolved : bool;
  viewerCanResolve : bool;
  viewerCanUnresolve : bool;
  path : string;
  diffSide : string;
  startLine : option Z;
  line : Z;
  originalStartLine : option Z;
  originalLine : Z;
  isOutdated : bool;
  subjectType : SubjectType;
  comments : ReviewThreadComments.t;
}.
End ReviewThread.

(** [vscode.CommentThreadCollapsibleState] *)
Inductive CommentThreadCollapsibleState : Set :=
  | Collapsed
  | Expanded.

Section ThreadNormaliser.

Variable parseDiffHunk : string → list DiffHunk.t.

(** [edges && edges.length ? edges[0].node.pullRequestReview.databaseId :
    undefined]; [startLine ?? line]; the comments are normalised left to
    right with the resolution state of the thread. *)
Definition parseGraphQLReviewThread (thread : ReviewThread.t)
    : Result IReviewThread.t :=
  comments ← mapM (λ comment,
                     parseGraphQLComment parseDiffHunk comment
                       (ReviewThread.isResolved thread))
                (ReviewThreadComments.nodes (ReviewThread.comments thread));
  mret {| IReviewThread.id := ReviewThread.id thread;
          IReviewThread.prReviewDatabaseId :=
            match ReviewThreadComments.edges (ReviewThread.comments thread) with
            | Some (edge :: _) =>
                Some (GraphQL.DatabaseIdRef.databaseId
                        (ReviewThreadEdgeNode.pullRequestReview
                           (ReviewThreadEdge.node edge)))
            | _ => None
            end;
          IReviewThread.isResolved := ReviewThread.isResolved thread;
          IReviewThread.viewerCanResolve := ReviewThread.viewerCanResolve thread;
          IReviewThread.viewerCanUnresolve := ReviewThread.viewerCanUnresolve thread;
          IReviewThread.path := ReviewThread.path thread;
          IReviewThread.startLine :=
            default (ReviewThread.line thread) (ReviewThread.startLine thread);
          IReviewThread.endLine := ReviewThread.line thread;
          IReviewThread.originalStartLine :=
            default (ReviewThread.originalLine thread)
                    (ReviewThread.originalStartLine thread);
          IReviewThread.originalEndLine := ReviewThread.originalLine thread;
          IReviewThread.diffSide := ReviewThread.diffSide thread;
          IReviewThread.isOutdated := ReviewThread.isOutdated thread;
          IReviewThread.comments := comments;
          IReviewThread.subjectType := ReviewThread.subjectType thread |}.

End ThreadNormaliser.

Definition COMMENT_EXPAND_STATE_EXPAND_VALUE : string := "expandUnresolved".

(** [config] is the value the workspace configuration holds for the
    setting [commentExpandState]; it is read only when [expand] is
    undefined. Reading [.user] of the last comment of a thread without
    comments raises a [TypeError]. *)
Definition getCommentCollapsibleState (thread : IReviewThread.t)
    (expand : option bool) (currentUser : option string)
    (config : option string) : Result CommentThreadCollapsibleState :=
  collapse ←
    (if IReviewThread.isResolved thread then Ok true
     else
       match currentUser with
       | Some currentUser =>
           if (currentUser =? "")%string then Ok false
           else
             match last (IReviewThread.comments thread) with
             | None => TypeError
             | Some comment =>
                 Ok (bool_decide (IAccount.login <$> IComment.user comment =
                                  Some currentUser)
                     && bool_decide (IReviewThread.subjectType thread = LINE))
             end
       | None => Ok false
       end);
  if (collapse : bool) then Ok Collapsed
  else
    let expand :=
      match expand with
      | Some expand => expand
      | None => bool_decide (config = Some COMMENT_EXPAND_STATE_EXPAND_VALUE)
      end in
    Ok (if expand then Expanded else Collapsed).

(** ** Reaction bar *)

(** The value of [reaction.icon || '']. *)
Inductive IconPath : Set :=
  | IconUri (icon : Icon)
  | IconString (path : string).

(** [vscode.CommentReaction] *)
Module CommentReaction.
Record t : Set := mk {
  label : string;
  authorHasReacted : bool;
  count : Z;
  iconPath : IconPath;
}.
End CommentReaction.

Definition iconPathOf (reaction : ReactionInfo.t) : IconPath :=
  match ReactionInfo.icon reaction with
  | Some icon => IconUri icon
  | None => IconString ""
  end.

(** The entry of a reaction nobody has given. *)
Definition unusedReaction (reaction : ReactionInfo.t) : CommentReaction.t :=
  {| CommentReaction.label := ReactionInfo.label reaction;
     CommentReaction.authorHasReacted := false;
     CommentReaction.count := 0;
     CommentReaction.iconPath := iconPathOf reaction |}.

(** [reactions.find(...)] gives the first reaction with the label. *)
Definition generateCommentReactions (reactions : option (list Reaction.t))
    : list CommentReaction.t :=
  (λ reaction,
     match reactions with
     | None => unusedReaction reaction
     | Some reactions =>
         match list_find (λ re, Reaction.label re = ReactionInfo.label reaction)
                         reactions with
         | Some (_, matchedReaction) =>
             {| CommentReaction.label := Reaction.label matchedReaction;
                CommentReaction.authorHasReacted :=
                  Reaction.viewerHasReacted matchedReaction;
                CommentReaction.count := Reaction.count matchedReaction;
                CommentReaction.iconPath := iconPathOf reaction |}
         | None => unusedReaction reaction
         end
     end) <$> getReactionGroup.

(** The first group with users whose content is the given title. *)
Definition firstGroupOf (title : string) (groups : list GraphQL.ReactionGroup.t)
    : option GraphQL.ReactionGroup.t :=
  snd <$> list_find
    (λ group,
       (0 < GraphQL.ReactionUsers.totalCount (GraphQL.ReactionGroup.users group))%Z ∧
       GraphQL.ReactionGroup.content group = title)
    groups.

(** The entry the reaction bar shows for a reaction, given the raw groups. *)
Definition reactionOfGroups (groups : list GraphQL.ReactionGroup.t)
    (reaction : ReactionInfo.t) : CommentReaction.t :=
  match firstGroupOf (ReactionInfo.title reaction) groups with
  | Some group =>
      {| CommentReaction.label := ReactionInfo.label reaction;
         CommentReaction.authorHasReacted :=
           GraphQL.ReactionGroup.viewerHasReacted group;
         CommentReaction.count :=
           GraphQL.ReactionUsers.totalCount (GraphQL.ReactionGroup.users group);
         CommentReaction.iconPath := iconPathOf reaction |}
  | None => unusedReaction reaction
  end.

(** A reaction group with the given content, number of users and flag. *)
Definition reactionGroupOf (content : string) (totalCount : Z)
    (viewerHasReacted : bool) : GraphQL.ReactionGroup.t :=
  {| GraphQL.ReactionGroup.content := content;
     GraphQL.ReactionGroup.viewerHasReacted := viewerHasReacted;
     GraphQL.ReactionGroup.users := GraphQL.ReactionUsers.mk totalCount |}.

(** ** Related users *)

(** An element of the result of [getRelatedUsersFromTimelineEvents]. *)
Module RelatedUser.
Record t : Set := mk {
  login : string;
  name : string;
}.
End RelatedUser.





(** ** Files and repositories *)

(** [vscode.Uri], read for its [path]. *)
Module Uri.
Record t : Set := mk { path : string }.
End Uri.

(** [Repository] (declared in api/api), read for its [rootUri]. *)
Module Repository.
Record t : Set := mk { rootUri : Uri.t }.
End Repository.




(** ** Sample inputs *)

(** The review event record of [reviewBy]. *)
Definition reviewOf (login state : string) : ReviewEvent.t :=
  {| ReviewEvent.comments := [];
     ReviewEvent.submittedAt := "";
     ReviewEvent.body := "";
     ReviewEvent.bodyHTML := "";
     ReviewEvent.htmlUrl := "";
     ReviewEvent.user := accountOf login;
     ReviewEvent.authorAssociation := "";
     ReviewEvent.state := state;
     ReviewEvent.id := 0 |}.

(** A review thread on [README.md] with the given resolution state and
    comments, and no edges. *)
Definition reviewThreadOf (isResolved : bool)
    (nodes : list GraphQL.ReviewComment.t) : ReviewThread.t :=
  {| ReviewThread.id := "PRRT_1";
     ReviewThread.isResolved := isResolved;
     ReviewThread.viewerCanResolve := true;
     ReviewThread.viewerCanUnresolve := true;
     ReviewThread.path := "README.md";
     ReviewThread.diffSide := "RIGHT";
     ReviewThread.startLine := None;
     ReviewThread.line := 3;
     ReviewThread.originalStartLine := None;
     ReviewThread.originalLine := 3;
     ReviewThread.isOutdated := false;
     ReviewThread.subjectType := LINE;
     ReviewThread.comments := ReviewThreadComments.mk nodes None |}.

(** * Theorems *)

(** C7: for every discriminator string the classifier returns a kind: a
    known discriminator gives the kind the table pairs it with, and every
    string outside the table gives [Other]. *)
Theorem convertGraphQLEventType_known_or_Other (text : string) :
  (∀ kind, (text, kind) ∈ knownDiscriminators →
     convertGraphQLEventType text = kind) ∧
  (text ∉ knownDiscriminators.*1 →
     convertGraphQLEventType text = EventType.Other).
Proof.
  split.
  - intros kind Hin. unfold knownDiscriminators in Hin.
    repeat (apply elem_of_cons in Hin as [Heq | Hin];
            [injection Heq as -> ->; reflexivity |]).
    by apply elem_of_nil in Hin.
  - intros Hout. unfold convertGraphQLEventType.
    repeat match goal with
           | |- context [String.eqb text ?d] =>
               destruct (String.eqb_spec text d) as [-> | _];
               [exfalso; apply Hout; cbn; set_solver |]
           end.
    reflexivity.
Qed.

Lemma convertGraphQLEventType_known_or_Other_witness :
  convertGraphQLEventType "MilestonedEvent" = EventType.Milestoned ∧
  convertGraphQLEventType "ReviewRequestedEvent" = EventType.Other.
Proof.
  split.
  - apply (proj1 (convertGraphQLEventType_known_or_Other "MilestonedEvent")).
    cbn. set_solver.
  - apply (proj2 (convertGraphQLEventType_known_or_Other "ReviewRequestedEvent")).
    cbn. intros Hin.
    repeat (apply elem_of_cons in Hin as [Heq | Hin]; [discriminate Heq |]).
    by apply elem_of_nil in Hin.
Defined.

(** C8: the result is the base mapping of the mergeability, overridden to
    [NotMergeable] by status BLOCKED and to [Behind] by status BEHIND unless
    the base mapping is [Conflict]; with the three cases the specification
    lists. *)
Theorem parseMergeability_override (m : Mergeable) (s : MergeStateStatus) :
  parseMergeability m s =
    (if decide (baseMergeability m = PullRequestMergeability.Conflict)
     then PullRequestMergeability.Conflict
     else match s with
          | BLOCKED => PullRequestMergeability.NotMergeable
          | BEHIND => PullRequestMergeability.Behind
          | _ => baseMergeability m
          end) ∧
  parseMergeability CONFLICTING BLOCKED = PullRequestMergeability.Conflict ∧
  parseMergeability MERGEABLE BEHIND = PullRequestMergeability.Behind ∧
  parseMergeability MERGEABLE CLEAN = PullRequestMergeability.Mergeable.
Proof.
  split; [| by repeat split].
  destruct m, s; reflexivity.
Qed.

(** ** Timeline normaliser *)

Lemma pushNormalizedEvent_app (acc : list TimelineEvent) item :
  pushNormalizedEvent acc item = acc ++ pushNormalizedEvent [] item.
Proof.
  unfold pushNormalizedEvent.
  destruct (convertGraphQLEventType _); by rewrite ?app_nil_r.
Qed.

Lemma pushNormalizedEvent_kind item :
  event <$> pushNormalizedEvent [] item =
    if hasCase (classify item) then [classify item] else [].
Proof.
  unfold pushNormalizedEvent, classify.
  by destruct (convertGraphQLEventType _).
Qed.

Lemma foldl_pushNormalizedEvent (acc : list TimelineEvent) events :
  foldl pushNormalizedEvent acc events =
    acc ++ (events ≫= pushNormalizedEvent []).
Proof.
  revert acc. induction events as [| item events IH]; intros acc; simpl.
  - by rewrite app_nil_r.
  - rewrite IH, (pushNormalizedEvent_app acc). by rewrite <- app_assoc.
Qed.

(** C1 (as the code has it): the output is the concatenation, in input
    order, of what each input event alone is normalised to; that is one
    event of the classified kind for an input whose kind has a case in the
    [switch] (Commented, Reviewed, Committed, Merged, Assigned,
    HeadRefDeleted) and nothing for the kinds Labeled, Milestoned and Other.
    The output length is the number of inputs of the six kinds, at most the
    input length. *)
Theorem parseGraphQLTimelineEvents_cased_kinds
    (events : list GraphQL.TimelineItem.t) :
  parseGraphQLTimelineEvents events = events ≫= pushNormalizedEvent [] ∧
  event <$> parseGraphQLTimelineEvents events =
    filter (λ type, hasCase type) (classify <$> events) ∧
  length (parseGraphQLTimelineEvents events) =
    length (filter (λ item, hasCase (classify item)) events) ∧
  length (parseGraphQLTimelineEvents events) ≤ length events.
Proof.
  assert (Hcat : parseGraphQLTimelineEvents events =
                 events ≫= pushNormalizedEvent []).
  { unfold parseGraphQLTimelineEvents. by rewrite foldl_pushNormalizedEvent. }
  assert (Hkinds : event <$> parseGraphQLTimelineEvents events =
                   filter (λ type, hasCase type) (classify <$> events)).
  { rewrite Hcat. induction events as [| item events IH]; [done |].
    rewrite bind_cons, fmap_app, fmap_cons, filter_cons.
    rewrite pushNormalizedEvent_kind.
    assert (IH' := IH ltac:(unfold parseGraphQLTimelineEvents;
                            by rewrite foldl_pushNormalizedEvent)).
    rewrite IH'. by destruct (hasCase (classify item)). }
  assert (Hlen : length (parseGraphQLTimelineEvents events) =
                 length (filter (λ item, hasCase (classify item)) events)).
  { rewrite <- (length_fmap event), Hkinds.
    clear. induction events as [| item events IH]; [done |].
    rewrite fmap_cons, !filter_cons.
    destruct (decide (hasCase (classify item))); simpl; by rewrite IH. }
  repeat split; try done.
  rewrite Hlen. apply length_filter.
Qed.

(** C1 fails as stated: an event whose discriminator classifies to [Other]
    is dropped, and so is a labelling event between two commits. *)
Lemma parseGraphQLTimelineEvents_drops_Other :
  classify (bareTimelineItem "ReviewRequestedEvent") = EventType.Other ∧
  parseGraphQLTimelineEvents [bareTimelineItem "ReviewRequestedEvent"] = [] ∧
  length (parseGraphQLTimelineEvents
            [bareTimelineItem "PullRequestCommit";
             bareTimelineItem "LabeledEvent";
             bareTimelineItem "PullRequestCommit"]) = 2 ∧
  ¬ (∀ events, length (parseGraphQLTimelineEvents events) = length events).
Proof.
  repeat split; try reflexivity.
  intros Hall. by specialize (Hall [bareTimelineItem "ReviewRequestedEvent"]).
Qed.

(** ** Author and comment normalisers *)

Lemma parseAuthor_None : parseAuthor None = ghost.
Proof. reflexivity. Qed.

Lemma parseGraphQLReaction_known groups :
  Forall (λ group,
            (0 < GraphQL.ReactionUsers.totalCount (GraphQL.ReactionGroup.users group))%Z →
            is_Some (reactionContentEmojiMapping !! GraphQL.ReactionGroup.content group))
         groups →
  ∃ reactions, parseGraphQLReaction groups = Ok reactions.
Proof.
  unfold parseGraphQLReaction.
  induction 1 as [| group groups Hgroup _ IH].
  - by exists [].
  - rewrite filter_cons. case_decide as Hpos; [| done].
    destruct (Hgroup Hpos) as [info Hinfo], IH as [reactions Hreactions].
    cbn [mapM]. rewrite Hinfo. cbn [mbind Result_bind].
    rewrite Hreactions. by eexists.
Qed.

Section CommentFacts.

Context (parseDiffHunk : string → list DiffHunk.t).

(** What [parseGraphQLComment] returns is determined, property by property,
    by the raw comment once its reactions are parsed. *)
Lemma parseGraphQLComment_Ok comment isResolved c :
  parseGraphQLComment parseDiffHunk comment isResolved = Ok c →
  IComment.user c = parseAuthor ∘ Some <$> GraphQL.ReviewComment.author comment ∧
  IComment.inReplyToId c =
    GraphQL.DatabaseIdRef.databaseId <$> GraphQL.ReviewComment.replyTo comment ∧
  IComment.isResolved c = Some isResolved ∧
  IComment.id c = GraphQL.ReviewComment.databaseId comment.
Proof.
  unfold parseGraphQLComment.
  destruct (parseGraphQLReaction _) as [reactions |]; [| done].
  intros [= <-]. cbn. by destruct (GraphQL.ReviewComment.author comment).
Qed.

Lemma parseGraphQLComment_known comment isResolved :
  reactionsKnown comment →
  ∃ c, parseGraphQLComment parseDiffHunk comment isResolved = Ok c.
Proof.
  intros Hknown. unfold parseGraphQLComment.
  destruct (parseGraphQLReaction_known _ Hknown) as [reactions ->].
  by eexists.
Qed.

Lemma parseGraphQLComment_keeps comment isResolved c :
  parseGraphQLComment parseDiffHunk comment isResolved = Ok c →
  negb (truthy (IComment.inReplyToId c)) = noVisibleReplyTarget comment.
Proof.
  intros Hc. apply parseGraphQLComment_Ok in Hc as (_ & -> & _).
  unfold noVisibleReplyTarget.
  destruct (GraphQL.ReviewComment.replyTo comment); cbn; [| done].
  by rewrite negb_involutive.
Qed.

End CommentFacts.

(** C3 (as the code has it): [parseAuthor] turns an absent author into the
    ghost account, whose login and url are empty, and the issue-comment
    normaliser stores that account; the review-comment normaliser guards the
    call, so a review comment without author gets no user at all, whenever
    its reactions parse. *)
Theorem absent_author_normalisation
    (parseDiffHunk : string → list DiffHunk.t)
    (issueComment : GraphQL.IssueComment.t)
    (reviewComment : GraphQL.ReviewComment.t) (isResolved : bool) :
  GraphQL.IssueComment.author issueComment = None →
  GraphQL.ReviewComment.author reviewComment = None →
  IAccount.login (parseAuthor None) = "" ∧
  IAccount.url (parseAuthor None) = "" ∧
  IComment.user (parseGraphQlIssueComment issueComment) = Some ghost ∧
  IComment.user <$> parseGraphQLComment parseDiffHunk reviewComment isResolved =
    (λ _, None) <$> parseGraphQLReaction (GraphQL.ReviewComment.reactionGroups reviewComment).
Proof.
  intros Hissue Hreview. repeat split.
  - unfold parseGraphQlIssueComment. cbn. by rewrite Hissue.
  - unfold parseGraphQLComment. rewrite Hreview.
    by destruct (parseGraphQLReaction _).
Qed.

Lemma absent_author_normalisation_witness :
  IComment.user (parseGraphQlIssueComment (issueCommentOf None)) = Some ghost ∧
  IComment.user <$> parseGraphQLComment (λ _, []) (reviewCommentOf 7 None None) true =
    Ok None.
Proof.
  pose proof (absent_author_normalisation (λ _, []) (issueCommentOf None)
                (reviewCommentOf 7 None None) true eq_refl eq_refl)
    as (_ & _ & Hissue & Hreview).
  split; [exact Hissue | exact Hreview].
Defined.

(** C3 fails as stated: the review comment without author is normalised to
    a comment whose user is undefined, not the ghost account. *)
Lemma parseGraphQLComment_absent_author_undefined :
  GraphQL.ReviewComment.author (reviewCommentOf 7 None None) = None ∧
  IComment.user <$> parseGraphQLComment (λ _, []) (reviewCommentOf 7 None None) false =
    Ok None ∧
  ¬ (∃ c, parseGraphQLComment (λ _, []) (reviewCommentOf 7 None None) false = Ok c ∧
          ∃ user, IComment.user c = Some user ∧
                  IAccount.login user = "" ∧ IAccount.url user = "").
Proof.
  repeat split.
  intros (c & Hc & user & Huser & _).
  apply parseGraphQLComment_Ok in Hc as (Hnone & _).
  rewrite Huser in Hnone. discriminate Hnone.
Qed.

(** ** Review event *)

Section ReviewEventFacts.

Context (parseDiffHunk : string → list DiffHunk.t).

Lemma mapM_parseGraphQLComment_known comments :
  Forall reactionsKnown comments →
  ∃ parsed,
    mapM (λ comment, parseGraphQLComment parseDiffHunk comment false) comments =
      Ok parsed.
Proof.
  induction 1 as [| comment comments Hknown _ [parsed IH]].
  - by exists [].
  - destruct (parseGraphQLComment_known parseDiffHunk comment false Hknown)
      as [c Hc].
    exists (c :: parsed). cbn [mapM]. rewrite Hc. cbn [mbind Result_bind].
    by rewrite IH.
Qed.

(** Filtering after normalising keeps the normalised forms of the raw
    comments without visible reply target. *)
Lemma mapM_parseGraphQLComment_filter comments parsed :
  mapM (λ comment, parseGraphQLComment parseDiffHunk comment false) comments =
    Ok parsed →
  mapM (λ comment, parseGraphQLComment parseDiffHunk comment false)
       (filter (λ comment, noVisibleReplyTarget comment) comments) =
    Ok (filter (λ c, negb (truthy (IComment.inReplyToId c))) parsed) ∧
  Forall (λ c, IComment.isResolved c = Some false) parsed.
Proof.
  revert parsed. induction comments as [| comment comments IH]; intros parsed.
  - intros [= <-]. by split.
  - cbn [mapM].
    destruct (parseGraphQLComment parseDiffHunk comment false) as [c |] eqn:Hc;
      [| done].
    cbn [mbind Result_bind].
    destruct (mapM _ comments) as [rest |] eqn:Hrest; [| done].
    intros [= <-]. destruct (IH rest eq_refl) as [IHmap IHres].
    pose proof (parseGraphQLComment_keeps _ _ _ _ Hc) as Hkeep.
    pose proof (parseGraphQLComment_Ok _ _ _ _ Hc) as (_ & _ & Hres & _).
    split; [| by constructor].
    rewrite !filter_cons, Hkeep.
    destruct (noVisibleReplyTarget comment); simpl; [| done].
    rewrite Hc. cbn [mbind Result_bind]. by rewrite IHmap.
Qed.

End ReviewEventFacts.

(** C10 (as the code has it): when the reactions of every comment of the
    review name known reactions, [parseGraphQLReviewEvent] returns a review
    event whose comments are the normalised forms, built with
    [isResolved = false] and in input order, of exactly the input comments
    whose [replyTo] is absent or has the database id 0; a comment that
    replies to a target with a non-zero database id is filtered out. *)
Theorem parseGraphQLReviewEvent_comments
    (parseDiffHunk : string → list DiffHunk.t)
    (review : GraphQL.SubmittedReview.t) :
  Forall reactionsKnown (reviewNodes review) →
  ∃ reviewEvent,
    parseGraphQLReviewEvent parseDiffHunk review = Ok reviewEvent ∧
    mapM (λ comment, parseGraphQLComment parseDiffHunk comment false)
         (filter (λ comment, noVisibleReplyTarget comment) (reviewNodes review)) =
      Ok (ReviewEvent.comments reviewEvent) ∧
    IComment.id <$> ReviewEvent.comments reviewEvent =
      GraphQL.ReviewComment.databaseId <$>
        filter (λ comment, noVisibleReplyTarget comment) (reviewNodes review) ∧
    Forall (λ c, IComment.isResolved c = Some false)
           (ReviewEvent.comments reviewEvent).
Proof.
  unfold reviewNodes.
  set (nodes := GraphQL.ReviewCommentConnection.nodes _).
  intros Hknown.
  destruct (mapM_parseGraphQLComment_known parseDiffHunk nodes Hknown)
    as [parsed Hparsed].
  destruct (mapM_parseGraphQLComment_filter parseDiffHunk nodes parsed Hparsed)
    as [Hfilter Hresolved].
  unfold parseGraphQLReviewEvent. fold nodes. rewrite Hparsed.
  eexists. split; [reflexivity |]. cbn [ReviewEvent.comments].
  split; [exact Hfilter |]. split.
  - revert Hfilter. generalize (filter (λ c, negb (truthy (IComment.inReplyToId c))) parsed).
    induction (filter (λ comment, noVisibleReplyTarget comment) nodes)
      as [| comment kept IH]; intros out.
    + by intros [= <-].
    + cbn [mapM].
      destruct (parseGraphQLComment parseDiffHunk comment false) as [c |] eqn:Hc;
        [| done].
      cbn [mbind Result_bind].
      destruct (mapM _ kept) as [rest |] eqn:Hrest; [| done].
      intros [= <-]. rewrite !fmap_cons, (IH rest eq_refl).
      by apply parseGraphQLComment_Ok in Hc as (_ & _ & _ & ->).
  - apply Forall_forall. intros c Hc.
    apply list_elem_of_filter in Hc as [_ Hc].
    by apply (proj1 (Forall_forall _ _) Hresolved).
Qed.

Lemma parseGraphQLReviewEvent_comments_witness :
  ∃ reviewEvent,
    parseGraphQLReviewEvent (λ _, [])
      (submittedReviewOf
         [reviewCommentOf 11 None None;
          reviewCommentOf 12 None (Some (GraphQL.DatabaseIdRef.mk 11));
          reviewCommentOf 13 None None]) = Ok reviewEvent ∧
    IComment.id <$> ReviewEvent.comments reviewEvent = [11; 13]%Z.
Proof.
  destruct (parseGraphQLReviewEvent_comments (λ _, [])
              (submittedReviewOf
                 [reviewCommentOf 11 None None;
                  reviewCommentOf 12 None (Some (GraphQL.DatabaseIdRef.mk 11));
                  reviewCommentOf 13 None None]))
    as (reviewEvent & Hev & _ & Hids & _).
  - repeat constructor.
  - exists reviewEvent. split; [exact Hev | exact Hids].
Defined.

(** C10 fails as stated: a comment that replies to the target with database
    id 0 carries a reply target and is kept in the review event. *)
Lemma parseGraphQLReviewEvent_keeps_reply_to_zero :
  is_Some (GraphQL.ReviewComment.replyTo
             (reviewCommentOf 12 None (Some (GraphQL.DatabaseIdRef.mk 0)))) ∧
  (λ ev, IComment.inReplyToId <$> ReviewEvent.comments ev) <$>
    parseGraphQLReviewEvent (λ _, [])
      (submittedReviewOf
         [reviewCommentOf 12 None (Some (GraphQL.DatabaseIdRef.mk 0))]) =
    Ok [Some 0%Z].
Proof. split; [by eexists | reflexivity]. Qed.

(** ** Reviewer-state reconciler *)

(** C4: requested reviewers A and B, the reviews B:APPROVED,
    A:CHANGES_REQUESTED, B:COMMENTED in this order, author C: exactly the
    two entries A and B, both REQUESTED, A first. *)
Theorem parseReviewers_requests_supersede :
  parseReviewers
    [Account (accountOf "A"); Account (accountOf "B")]
    [reviewBy "B" "APPROVED"; reviewBy "A" "CHANGES_REQUESTED";
     reviewBy "B" "COMMENTED"]
    (accountOf "C") =
  Ok [ReviewState.mk (Account (accountOf "A")) "REQUESTED";
      ReviewState.mk (Account (accountOf "B")) "REQUESTED"].
Proof. vm_compute. reflexivity. Qed.

Section ReviewerFacts.

Context (author : string).

Lemma seenGet_insert seen (k k' : string) :
  seenGet (<[k := true]> seen) k' = true ↔ k = k' ∨ seenGet seen k' = true.
Proof.
  unfold seenGet. destruct (decide (k = k')) as [-> | Hne].
  - rewrite lookup_insert_eq. simpl. tauto.
  - rewrite lookup_insert_ne by done. tauto.
Qed.

Lemma seenGet_empty (k : string) : seenGet ∅ k = false.
Proof. unfold seenGet. by rewrite lookup_empty. Qed.

Lemma reviewerIds_app reviewers reviewers' :
  reviewerIds (reviewers ++ reviewers') =
    reviewerIds reviewers ++ reviewerIds reviewers'.
Proof. unfold reviewerIds. apply fmap_app. Qed.

Lemma foldr_noteReview_noted reviewEvents :
  reviewsNoted author (foldr noteReview (<[author := true]> ∅, []) reviewEvents).
Proof.
  unfold reviewsNoted.
  induction reviewEvents as [| review reviewEvents IH]; simpl.
  - split_and!.
    + intros k. rewrite seenGet_insert, seenGet_empty, elem_of_nil.
      split; [intros [-> | ?]; [by left | done] | intros [-> | []]; by left].
    + constructor.
    + apply not_elem_of_nil.
  - destruct (foldr noteReview _ reviewEvents) as [seen reviewers].
    destruct IH as (Hseen & Hdup & Hauthor). simpl in *.
    unfold noteReview.
    destruct (seenGet seen (IAccount.login (ReviewEvent.user review))) eqn:Hget;
      simpl; [done |].
    assert (Hfresh : ¬ (IAccount.login (ReviewEvent.user review) = author ∨
                        IAccount.login (ReviewEvent.user review) ∈ reviewerIds reviewers)).
    { rewrite <- Hseen, Hget. done. }
    rewrite reviewerIds_app. simpl. split_and!.
    + intros k.
      rewrite seenGet_insert, Hseen, elem_of_app, list_elem_of_singleton.
      split; [intros [<- | [-> | ?]] | intros [-> | [? | ->]]]; tauto.
    + apply NoDup_app. split_and!; [done | | apply NoDup_singleton].
      intros k Hk ->%list_elem_of_singleton. tauto.
    + rewrite elem_of_app, list_elem_of_singleton. intros [? | ->]; tauto.
Qed.

Lemma forEachRequest_ids seen requestedReviewers : ∀ reviewers,
  (∀ k, seenGet seen k = true → k = author ∨ k ∈ reviewerIds reviewers) →
  seenGet seen author = true →
  author ∉ reviewerIds reviewers →
  match forEachRequest seen requestedReviewers reviewers with
  | Ok reviewers' =>
      reviewerIds reviewers' =
        reviewerIds reviewers ++
        filter (λ k, seenGet seen k = false) (reviewerId <$> requestedReviewers) ∧
      author ∉ reviewerId <$> requestedReviewers
  | TypeError => author ∈ reviewerId <$> requestedReviewers
  end.
Proof.
  induction requestedReviewers as [| request rest IH];
    intros reviewers Hseen Hself Hauthor.
  - simpl. rewrite filter_nil, app_nil_r. split; [done | apply not_elem_of_nil].
  - cbn [forEachRequest]. unfold noteRequest.
    rewrite fmap_cons, filter_cons.
    destruct (seenGet seen (reviewerId request)) eqn:Hget; simpl.
    + destruct (list_find _ reviewers) as [[i reviewer] |] eqn:Hfind; simpl.
      * apply list_find_Some in Hfind as (Hi & Hid & _).
        assert (Hin : reviewerId request ∈ reviewerIds reviewers).
        { apply list_elem_of_fmap. exists reviewer. split; [done |].
          by eapply list_elem_of_lookup_2. }
        assert (Hids : reviewerIds
                         (<[i := ReviewState.mk (ReviewState.reviewer reviewer) "REQUESTED"]>
                            reviewers) = reviewerIds reviewers).
        { unfold reviewerIds. rewrite list_fmap_insert. simpl.
          apply list_insert_id. by rewrite list_lookup_fmap, Hi. }
        specialize (IH _ ltac:(by rewrite Hids) Hself ltac:(by rewrite Hids)).
        destruct (forEachRequest seen rest _) as [reviewers' |].
        -- rewrite Hids in IH. destruct IH as [-> Hrest]. split; [done |].
           intros [-> | ?]%elem_of_cons; done.
        -- apply elem_of_cons. by right.
      * apply list_find_None in Hfind.
        assert (Hout : reviewerId request ∉ reviewerIds reviewers).
        { intros (r & Hr & Hin)%list_elem_of_fmap.
          by eapply (proj1 (Forall_forall _ _) Hfind). }
        apply Hseen in Hget as [-> | ?]; [apply elem_of_cons; by left | done].
    + assert (Hne : reviewerId request ≠ author) by congruence.
      specialize (IH (reviewers ++ [ReviewState.mk request "REQUESTED"])).
      rewrite reviewerIds_app in IH. simpl in IH.
      assert (Hseen' : ∀ k, seenGet seen k = true →
                            k = author ∨ k ∈ reviewerIds reviewers ++ [reviewerId request]).
      { intros k Hk. rewrite elem_of_app. destruct (Hseen k Hk); tauto. }
      assert (Hauthor' : author ∉ reviewerIds reviewers ++ [reviewerId request]).
      { rewrite elem_of_app, list_elem_of_singleton. intros [Hin | ->]; tauto. }
      specialize (IH Hseen' Hself Hauthor').
      destruct (forEachRequest seen rest _) as [reviewers' |].
      * destruct IH as [-> Hrest].
        rewrite <- app_assoc. split; [done |].
        intros [-> | Hin]%elem_of_cons; tauto.
      * apply elem_of_cons. by right.
Qed.

End ReviewerFacts.

Lemma sortInsert_Permutation {A} (compare : A → A → Z) x sorted :
  sortInsert compare x sorted ≡ₚ x :: sorted.
Proof.
  induction sorted as [| y rest IH]; simpl; [done |].
  destruct (compare x y <? 0)%Z; [done |].
  rewrite IH. apply Permutation_swap.
Qed.

Lemma sort_Permutation {A} (compare : A → A → Z) array :
  sort compare array ≡ₚ array.
Proof.
  unfold sort.
  assert (Hgen : ∀ sorted,
            foldl (λ sorted x, sortInsert compare x sorted) sorted array ≡ₚ
              sorted ++ array).
  { induction array as [| x array IH]; intros sorted; simpl.
    - by rewrite app_nil_r.
    - rewrite IH, sortInsert_Permutation. simpl. apply Permutation_middle. }
  apply Hgen.
Qed.

(** The reviewer identities of the result, up to the order [sort] gives
    them: those of the reviews, newest first, then the requested ones that
    no review has noted; the call raises exactly when a requested identity
    is the author's login. *)
Lemma parseReviewers_ids requestedReviewers timelineEvents author :
  match parseReviewers requestedReviewers timelineEvents author with
  | Ok reviewers =>
      ∃ seen reviewed,
        reviewsNoted (IAccount.login author) (seen, reviewed) ∧
        reviewerIds reviewers ≡ₚ
          reviewerIds reviewed ++
          filter (λ k, seenGet seen k = false) (reviewerId <$> requestedReviewers) ∧
        IAccount.login author ∉ reviewerId <$> requestedReviewers
  | TypeError => IAccount.login author ∈ reviewerId <$> requestedReviewers
  end.
Proof.
  unfold parseReviewers.
  pose proof (foldr_noteReview_noted (IAccount.login author)
                (filter (λ event, ReviewEvent.state event ≠ "PENDING")
                        (omap asReviewEvent timelineEvents))) as Hnoted.
  destruct (foldr noteReview _ _) as [seen reviewed].
  pose proof Hnoted as (Hseen & Hdup & Hauthor). simpl in Hseen, Hdup, Hauthor.
  pose proof (forEachRequest_ids (IAccount.login author) seen requestedReviewers
                reviewed (λ k, proj1 (Hseen k))
                (proj2 (Hseen _) (or_introl eq_refl)) Hauthor) as Hreq.
  destruct (forEachRequest seen requestedReviewers reviewed) as [reviewers |];
    simpl; [| done].
  destruct Hreq as [Hids Hout]. exists seen, reviewed. split_and!; [done | | done].
  rewrite <- Hids. unfold reviewerIds. by rewrite sort_Permutation.
Qed.

(** The call raises exactly when a requested identity is the author's
    login. *)
Lemma parseReviewers_raises_iff requestedReviewers timelineEvents author :
  parseReviewers requestedReviewers timelineEvents author = TypeError ↔
  IAccount.login author ∈ reviewerId <$> requestedReviewers.
Proof.
  pose proof (parseReviewers_ids requestedReviewers timelineEvents author) as H.
  destruct (parseReviewers _ _ _) as [reviewers |].
  - destruct H as (_ & _ & _ & _ & Hout). split; [done | tauto].
  - tauto.
Qed.

(** C5 fails on the code: a review request to the identity of the author
    makes [find] return [undefined], and the assignment to its [state]
    raises a [TypeError]. *)
Theorem parseReviewers_author_requested_raises :
  parseReviewers [Account (accountOf "C")] [] (accountOf "C") = TypeError.
Proof. vm_compute. reflexivity. Qed.

(** C6 (as the code has it): whenever the call returns, no entry has the
    author's login as its identity, and the entries have pairwise distinct
    identities provided the requested identities are pairwise distinct; the
    call raises only when a requested identity is the author's login. *)
Theorem parseReviewers_entries requestedReviewers timelineEvents author :
  match parseReviewers requestedReviewers timelineEvents author with
  | Ok reviewers =>
      (IAccount.login author ∉ reviewerIds reviewers) ∧
      (NoDup (reviewerId <$> requestedReviewers) → NoDup (reviewerIds reviewers))
  | TypeError => IAccount.login author ∈ reviewerId <$> requestedReviewers
  end.
Proof.
  pose proof (parseReviewers_ids requestedReviewers timelineEvents author) as H.
  destruct (parseReviewers _ _ _) as [reviewers |]; [| done].
  destruct H as (seen & reviewed & (Hseen & Hdup & Hauthor) & Hids & Hout).
  simpl in Hseen, Hdup, Hauthor. split.
  - rewrite Hids, elem_of_app, list_elem_of_filter. tauto.
  - intros Hreq. rewrite Hids. apply NoDup_app. split_and!.
    + done.
    + intros k Hk [Hget _]%list_elem_of_filter.
      assert (seenGet seen k = true) by (apply Hseen; by right). congruence.
    + by apply NoDup_filter.
Qed.

Lemma parseReviewers_entries_witness :
  ("C" ∉ reviewerIds
           [ReviewState.mk (Account (accountOf "D")) "COMMENTED";
            ReviewState.mk (Account (accountOf "A")) "REQUESTED";
            ReviewState.mk (Team (ITeam.mk "T" None)) "REQUESTED"]) ∧
  NoDup (reviewerIds
           [ReviewState.mk (Account (accountOf "D")) "COMMENTED";
            ReviewState.mk (Account (accountOf "A")) "REQUESTED";
            ReviewState.mk (Team (ITeam.mk "T" None)) "REQUESTED"]).
Proof.
  pose proof (parseReviewers_entries
                [Account (accountOf "A"); Team (ITeam.mk "T" None)]
                [reviewBy "C" "COMMENTED"; reviewBy "A" "APPROVED";
                 reviewBy "D" "COMMENTED"]
                (accountOf "C")) as H.
  assert (Heq : parseReviewers
                  [Account (accountOf "A"); Team (ITeam.mk "T" None)]
                  [reviewBy "C" "COMMENTED"; reviewBy "A" "APPROVED";
                   reviewBy "D" "COMMENTED"]
                  (accountOf "C") =
                Ok [ReviewState.mk (Account (accountOf "D")) "COMMENTED";
                    ReviewState.mk (Account (accountOf "A")) "REQUESTED";
                    ReviewState.mk (Team (ITeam.mk "T" None)) "REQUESTED"]).
  { vm_compute. reflexivity. }
  rewrite Heq in H. destruct H as [Hauthor Hdup].
  split; [exact Hauthor |].
  apply Hdup. refine (bool_decide_unpack (NoDup _) _). vm_compute. exact I.
Defined.

(** C6 fails as stated: a reviewer requested twice gets two entries. *)
Lemma parseReviewers_duplicate_request :
  parseReviewers [Account (accountOf "A"); Account (accountOf "A")] []
                 (accountOf "C") =
    Ok [ReviewState.mk (Account (accountOf "A")) "REQUESTED";
        ReviewState.mk (Account (accountOf "A")) "REQUESTED"] ∧
  ¬ NoDup (reviewerIds
             [ReviewState.mk (Account (accountOf "A")) "REQUESTED";
              ReviewState.mk (Account (accountOf "A")) "REQUESTED"]).
Proof.
  split; [vm_compute; reflexivity |].
  intros Hdup. apply NoDup_cons in Hdup as [Hnotin _].
  apply Hnotin. simpl. apply elem_of_cons. by left.
Qed.

(** ** Commit-regrouping pass *)

(** C9: nothing changes when the captured oid is undefined, when the head
    is null, or when the head is at the captured oid. *)
Theorem insertNewCommitsSinceReview_noop
    (timelineEvents : list TimelineEvent) (latestReviewCommitOid : option string)
    (currentUser : string) (head : option GitHubRef.t) :
  latestReviewCommitOid = None ∨ head = None ∨
    GitHubRef.sha <$> head = latestReviewCommitOid →
  insertNewCommitsSinceReview timelineEvents latestReviewCommitOid currentUser head =
    Ok timelineEvents.
Proof.
  unfold insertNewCommitsSinceReview.
  intros [-> | [-> | Hsame]]; [done | by destruct latestReviewCommitOid |].
  destruct latestReviewCommitOid as [oid |], head as [head |]; try done.
  injection Hsame as ->. rewrite String.eqb_refl. simpl.
  by rewrite andb_false_r.
Qed.

Lemma insertNewCommitsSinceReview_noop_witness :
  insertNewCommitsSinceReview [reviewBy "U" "APPROVED"; commitOf "X"; commitOf "Y"]
    None "U" (Some (headAt "Y")) =
    Ok [reviewBy "U" "APPROVED"; commitOf "X"; commitOf "Y"] ∧
  insertNewCommitsSinceReview [reviewBy "U" "APPROVED"; commitOf "X"; commitOf "Y"]
    (Some "X") "U" None =
    Ok [reviewBy "U" "APPROVED"; commitOf "X"; commitOf "Y"] ∧
  insertNewCommitsSinceReview [reviewBy "U" "APPROVED"; commitOf "X"; commitOf "Y"]
    (Some "X") "U" (Some (headAt "X")) =
    Ok [reviewBy "U" "APPROVED"; commitOf "X"; commitOf "Y"].
Proof.
  split_and!.
  - apply insertNewCommitsSinceReview_noop. by left.
  - apply insertNewCommitsSinceReview_noop. right. by left.
  - apply insertNewCommitsSinceReview_noop. right. by right.
Defined.

(** C2 (as the code has it): on the timeline [Reviewed by U, commit X,
    commit Y] with captured oid X and the head elsewhere, the scan from the
    newest event meets commit X before any review, so the review and the two
    commits stay where they are and the marker with id X is appended after
    commit Y. *)
Theorem insertNewCommitsSinceReview_review_first :
  insertNewCommitsSinceReview
    [reviewBy "U" "APPROVED"; commitOf "X"; commitOf "Y"]
    (Some "X") "U" (Some (headAt "Y")) =
  Ok [reviewBy "U" "APPROVED"; commitOf "X"; commitOf "Y"; newCommitsMarker "X"].
Proof. vm_compute. reflexivity. Qed.

(** C2 fails as stated: the marker does not follow the review, and commit X
    is not preceded by it. *)
Lemma insertNewCommitsSinceReview_marker_not_after_review :
  insertNewCommitsSinceReview
    [reviewBy "U" "APPROVED"; commitOf "X"; commitOf "Y"]
    (Some "X") "U" (Some (headAt "Y")) ≠
  Ok [reviewBy "U" "APPROVED"; newCommitsMarker "X"; commitOf "X"; commitOf "Y"] ∧
  ¬ (∃ timeline i,
       insertNewCommitsSinceReview
         [reviewBy "U" "APPROVED"; commitOf "X"; commitOf "Y"]
         (Some "X") "U" (Some (headAt "Y")) = Ok timeline ∧
       timeline !! i = Some (newCommitsMarker "X") ∧
       timeline !! S i = Some (commitOf "X")).
Proof.
  assert (Heq : insertNewCommitsSinceReview
                  [reviewBy "U" "APPROVED"; commitOf "X"; commitOf "Y"]
                  (Some "X") "U" (Some (headAt "Y")) =
                Ok [reviewBy "U" "APPROVED"; commitOf "X"; commitOf "Y";
                    newCommitsMarker "X"]).
  { vm_compute. reflexivity. }
  rewrite Heq. split; [discriminate |].
  intros (timeline & i & [= <-] & Hmarker & Hcommit).
  do 4 (destruct i as [| i]; [discriminate |]). discriminate.
Qed.

(** * Further properties *)

(** ** Commit-regrouping pass: the scan *)

Section Scan.

Context (oid user : string).

Lemma lookup_body {A} (e0 : A) front e tail :
  (e0 :: front ++ e :: tail) !! S (length front) = Some e.
Proof. simpl. by rewrite list_lookup_middle. Qed.

Lemma delete_body {A} (e0 : A) front e tail :
  delete (S (length front)) (e0 :: front ++ e :: tail) = e0 :: front ++ tail.
Proof. simpl. by rewrite delete_middle. Qed.

Lemma scanTimeline_pass e0 front mid tail lastIndex inter :
  Forall (passedOver oid user) mid →
  scanTimeline oid user (length front + length mid)
    (Regrouping.mk (e0 :: front ++ mid ++ tail) lastIndex false inter) =
  scanTimeline oid user (length front)
    (Regrouping.mk (e0 :: front ++ mid ++ tail) lastIndex false inter).
Proof.
  revert tail. induction mid as [| e mid IH] using rev_ind; intros tail Hmid.
  - simpl. by rewrite Nat.add_0_r.
  - apply Forall_app in Hmid as [Hmid [[Hcommit Hreview] _]%Forall_cons].
    rewrite length_app. simpl.
    replace (length front + (length mid + 1)) with (S (length (front ++ mid)))
      by (rewrite length_app; lia).
    cbn [scanTimeline Regrouping.timelineEvents].
    replace (e0 :: front ++ (mid ++ [e]) ++ tail)
      with (e0 :: (front ++ mid) ++ e :: tail)
      by (by rewrite <- !app_assoc).
    rewrite lookup_body, Hcommit, Hreview. simpl.
    rewrite length_app, <- app_assoc. apply (IH (e :: tail) Hmid).
Qed.

Lemma scanTimeline_collect e0 front mid tail lastIndex inter :
  Forall (λ e, isCommitOf oid e = false) mid →
  scanTimeline oid user (length front + length mid)
    (Regrouping.mk (e0 :: front ++ mid ++ tail) lastIndex true inter) =
  scanTimeline oid user (length front)
    (Regrouping.mk (e0 :: front ++ filter (λ e, ¬ isCommitted e) mid ++ tail)
                   lastIndex true (filter (λ e, isCommitted e) mid ++ inter)).
Proof.
  revert tail inter. induction mid as [| e mid IH] using rev_ind;
    intros tail inter Hmid.
  - simpl. by rewrite Nat.add_0_r.
  - apply Forall_app in Hmid as [Hmid [Hcommit _]%Forall_cons].
    rewrite length_app. simpl.
    replace (length front + (length mid + 1)) with (S (length (front ++ mid)))
      by (rewrite length_app; lia).
    cbn [scanTimeline Regrouping.timelineEvents].
    replace (e0 :: front ++ (mid ++ [e]) ++ tail)
      with (e0 :: (front ++ mid) ++ e :: tail)
      by (by rewrite <- !app_assoc).
    rewrite lookup_body, Hcommit. simpl.
    rewrite !filter_app, !filter_cons, !filter_nil.
    fold (isCommitted e).
    destruct (isCommitted e) eqn:He; simpl.
    + rewrite delete_middle.
      rewrite app_nil_r, length_app, <- !app_assoc. simpl.
      apply (IH tail (e :: inter) Hmid).
    + rewrite app_nil_r, length_app, <- !app_assoc. simpl.
      apply (IH (e :: tail) inter Hmid).
Qed.

Lemma isReviewBy_not_commit e :
  isReviewBy user e = true → isCommitOf oid e = false ∧ isCommitted e = false.
Proof. by destruct e. Qed.

Lemma scanTimeline_found e0 front cX tail lastIndex flag inter :
  isCommitOf oid cX = true →
  scanTimeline oid user (length front + 1)
    (Regrouping.mk (e0 :: front ++ cX :: tail) lastIndex flag inter) =
  Ok (spliceInsert (e0 :: front ++ cX :: tail) (lastIndex + 1)
        (newCommitsMarker oid :: inter)).
Proof.
  intros HcX. rewrite Nat.add_1_r.
  cbn [scanTimeline Regrouping.timelineEvents].
  by rewrite lookup_body, HcX.
Qed.

Lemma scanTimeline_review e0 front R tail lastIndex inter :
  isReviewBy user R = true →
  scanTimeline oid user (length front + 1)
    (Regrouping.mk (e0 :: front ++ R :: tail) lastIndex false inter) =
  scanTimeline oid user (length front)
    (Regrouping.mk (e0 :: front ++ R :: tail) (Z.of_nat (length front + 1)) true inter).
Proof.
  intros HR. destruct (isReviewBy_not_commit R HR) as [Hcommit _].
  rewrite Nat.add_1_r.
  cbn [scanTimeline Regrouping.timelineEvents].
  by rewrite lookup_body, Hcommit, HR.
Qed.

Ltac reassoc :=
  repeat first [rewrite <- app_assoc | rewrite app_nil_r | progress cbn [app]];
  reflexivity.
Ltac lengths :=
  repeat first [rewrite length_app | progress cbn [length]]; lia.

Lemma scanTimeline_pass_at T i e0 front mid tail lastIndex inter :
  T = e0 :: front ++ mid ++ tail →
  i = length front + length mid →
  Forall (passedOver oid user) mid →
  scanTimeline oid user i (Regrouping.mk T lastIndex false inter) =
  scanTimeline oid user (length front) (Regrouping.mk T lastIndex false inter).
Proof. intros -> ->. apply scanTimeline_pass. Qed.

Lemma scanTimeline_collect_at T i e0 front mid tail lastIndex inter :
  T = e0 :: front ++ mid ++ tail →
  i = length front + length mid →
  Forall (λ e, isCommitOf oid e = false) mid →
  scanTimeline oid user i (Regrouping.mk T lastIndex true inter) =
  scanTimeline oid user (length front)
    (Regrouping.mk (e0 :: front ++ filter (λ e, ¬ isCommitted e) mid ++ tail)
                   lastIndex true (filter (λ e, isCommitted e) mid ++ inter)).
Proof. intros -> ->. apply scanTimeline_collect. Qed.

Lemma scanTimeline_found_at T i e0 front cX tail lastIndex flag inter :
  T = e0 :: front ++ cX :: tail →
  i = length front + 1 →
  isCommitOf oid cX = true →
  scanTimeline oid user i (Regrouping.mk T lastIndex flag inter) =
  Ok (spliceInsert T (lastIndex + 1) (newCommitsMarker oid :: inter)).
Proof. intros -> ->. apply scanTimeline_found. Qed.

Lemma scanTimeline_review_at T i e0 front R tail lastIndex inter :
  T = e0 :: front ++ R :: tail →
  i = length front + 1 →
  isReviewBy user R = true →
  scanTimeline oid user i (Regrouping.mk T lastIndex false inter) =
  scanTimeline oid user (length front)
    (Regrouping.mk T (Z.of_nat i) true inter).
Proof. intros -> ->. apply scanTimeline_review. Qed.

(** The four courses the scan can take, by the place of the last commit of
    the captured oid and of the last review of the viewer behind it. *)
Lemma scanTimeline_no_review_after e0 pre cX post lastIndex :
  isCommitOf oid cX = true →
  Forall (passedOver oid user) post →
  scanTimeline oid user (length (pre ++ cX :: post))
    (Regrouping.mk (e0 :: pre ++ cX :: post) lastIndex false []) =
  Ok (spliceInsert (e0 :: pre ++ cX :: post) (lastIndex + 1)
        [newCommitsMarker oid]).
Proof.
  intros HcX Hpost.
  rewrite (scanTimeline_pass_at _ _ e0 (pre ++ [cX]) post []);
    [| reassoc | lengths | done].
  by rewrite (scanTimeline_found_at _ _ e0 pre cX post);
    [| reassoc | lengths | done].
Qed.

Lemma scanTimeline_review_after e0 pre cX mid R post lastIndex :
  isCommitOf oid cX = true →
  Forall (λ e, isCommitOf oid e = false) mid →
  isReviewBy user R = true →
  Forall (passedOver oid user) post →
  scanTimeline oid user (length (pre ++ cX :: mid ++ R :: post))
    (Regrouping.mk (e0 :: pre ++ cX :: mid ++ R :: post) lastIndex false []) =
  Ok (spliceInsert
        (e0 :: pre ++ cX :: filter (λ e, ¬ isCommitted e) mid ++ R :: post)
        (Z.of_nat (length (pre ++ cX :: mid) + 1) + 1)
        (newCommitsMarker oid :: filter (λ e, isCommitted e) mid)).
Proof.
  intros HcX Hmid HR Hpost.
  rewrite (scanTimeline_pass_at _ _ e0 (pre ++ cX :: mid ++ [R]) post []);
    [| reassoc | lengths | done].
  rewrite (scanTimeline_review_at _ _ e0 (pre ++ cX :: mid) R post);
    [| reassoc | lengths | done].
  rewrite (scanTimeline_collect_at _ _ e0 (pre ++ [cX]) mid (R :: post));
    [| reassoc | lengths | done].
  rewrite (scanTimeline_found_at _ _ e0 pre cX
             (filter (λ e, ¬ isCommitted e) mid ++ R :: post));
    [| reassoc | lengths | done].
  rewrite app_nil_r. do 2 f_equal; [reassoc | f_equal; lengths].
Qed.

Lemma scanTimeline_commits_dropped e0 mid R post lastIndex :
  Forall (λ e, isCommitOf oid e = false) mid →
  isReviewBy user R = true →
  Forall (passedOver oid user) post →
  scanTimeline oid user (length (mid ++ R :: post))
    (Regrouping.mk (e0 :: mid ++ R :: post) lastIndex false []) =
  Ok (e0 :: filter (λ e, ¬ isCommitted e) mid ++ R :: post).
Proof.
  intros Hmid HR Hpost.
  rewrite (scanTimeline_pass_at _ _ e0 (mid ++ [R]) post []);
    [| reassoc | lengths | done].
  rewrite (scanTimeline_review_at _ _ e0 mid R post);
    [| reassoc | lengths | done].
  by rewrite (scanTimeline_collect_at _ _ e0 [] mid (R :: post));
    [| reassoc | lengths | done].
Qed.

Lemma scanTimeline_nothing_met e0 post lastIndex :
  Forall (passedOver oid user) post →
  scanTimeline oid user (length post)
    (Regrouping.mk (e0 :: post) lastIndex false []) =
  Ok (e0 :: post).
Proof.
  intros Hpost.
  by rewrite (scanTimeline_pass_at _ _ e0 [] post []);
    [| reassoc | lengths | done].
Qed.

Lemma passedOver_Forall (l : list TimelineEvent) :
  Forall (λ e, isCommitOf oid e = false) l →
  Forall (λ e, isReviewBy user e = false) l →
  Forall (passedOver oid user) l.
Proof.
  intros Hc Hr. apply Forall_forall. intros e He. split.
  - by apply (proj1 (Forall_forall _ _) Hc).
  - by apply (proj1 (Forall_forall _ _) Hr).
Qed.

End Scan.

Lemma length_filter_isCommitted (mid : list TimelineEvent) :
  length mid = length (filter (λ e, ¬ isCommitted e) mid) +
               length (filter (λ e, isCommitted e) mid).
Proof.
  induction mid as [| e mid IH]; [done |].
  rewrite !filter_cons. destruct (isCommitted e); simpl; lia.
Qed.

Lemma spliceInsert_Permutation {A} (array : list A) start items :
  spliceInsert array start items ≡ₚ items ++ array.
Proof.
  unfold spliceInsert.
  rewrite <- (take_drop (Z.to_nat start) array) at 3. solve_Permutation.
Qed.

Lemma spliceInsert_head {A} (e0 : A) array start items :
  (1 ≤ start)%Z → head (spliceInsert (e0 :: array) start items) = Some e0.
Proof.
  intros Hstart. unfold spliceInsert.
  destruct (Z.to_nat start) as [| n] eqn:Hn; [lia | done].
Qed.

Lemma sublist_same_length {A} (l1 l2 : list A) :
  l1 `sublist_of` l2 → length l2 ≤ length l1 → l1 = l2.
Proof.
  induction 1 as [| x l1 l2 Hsub IH | x l1 l2 Hsub IH]; simpl; intros Hlen.
  - done.
  - f_equal. apply IH. lia.
  - apply sublist_length in Hsub. lia.
Qed.

Lemma last_occurrence {A} (P : A → bool) (l : list A) :
  (∃ l1 x l2, l = l1 ++ x :: l2 ∧ P x = true ∧ Forall (λ y, P y = false) l2) ∨
  Forall (λ y, P y = false) l.
Proof.
  induction l as [| a l [(l1 & x & l2 & -> & Hx & Hl2) | Hl]].
  - by right.
  - left. by exists (a :: l1), x, l2.
  - destruct (P a) eqn:Ha.
    + left. by exists [], a, l.
    + right. by constructor.
Qed.

Section Regroup.

Context (oid user : string) (headRef : GitHubRef.t).
Context (Hoid : oid ≠ "") (Hhead : GitHubRef.sha headRef ≠ oid).

Ltac reassoc :=
  repeat first [rewrite <- app_assoc | rewrite app_nil_r | progress cbn [app]];
  reflexivity.
Ltac lengths :=
  repeat first [rewrite length_app | progress cbn [length]]; lia.

Lemma insertNewCommitsSinceReview_acts e0 body :
  insertNewCommitsSinceReview (e0 :: body) (Some oid) user (Some headRef) =
  scanTimeline oid user (length body)
    (Regrouping.mk (e0 :: body) (Z.of_nat (length body)) false []).
Proof.
  unfold insertNewCommitsSinceReview.
  destruct (String.eqb_spec oid "") as [| _]; [done |].
  destruct (String.eqb_spec (GitHubRef.sha headRef) oid) as [| _]; [done |].
  cbn [negb andb length].
  replace (Z.of_nat (S (length body)) - 1)%Z with (Z.of_nat (length body)) by lia.
  by rewrite Nat2Z.id.
Qed.

(** X1: when the last commit of the captured oid behind the first event
    has no review of the viewer after it, the marker is appended to the
    timeline and nothing else changes. *)
Theorem insertNewCommitsSinceReview_no_review_after e0 pre cX post :
  isCommitOf oid cX = true →
  Forall (passedOver oid user) post →
  insertNewCommitsSinceReview (e0 :: pre ++ cX :: post) (Some oid) user (Some headRef) =
  Ok ((e0 :: pre ++ cX :: post) ++ [newCommitsMarker oid]).
Proof.
  intros HcX Hpost.
  rewrite insertNewCommitsSinceReview_acts, scanTimeline_no_review_after by done.
  unfold spliceInsert.
  replace (Z.to_nat (Z.of_nat (length (pre ++ cX :: post)) + 1))
    with (length (e0 :: pre ++ cX :: post)) by (simpl; lia).
  by rewrite firstn_all, drop_all.
Qed.

(** X2: when the viewer's last review lies behind the last commit of the
    captured oid, the commits between the two are taken out and put back
    behind the marker, and the marker lands as many events behind the
    review as commits were taken out. *)
Theorem insertNewCommitsSinceReview_review_after e0 pre cX mid R post :
  isCommitOf oid cX = true →
  Forall (λ e, isCommitOf oid e = false) mid →
  isReviewBy user R = true →
  Forall (passedOver oid user) post →
  insertNewCommitsSinceReview (e0 :: pre ++ cX :: mid ++ R :: post)
    (Some oid) user (Some headRef) =
  Ok (e0 :: pre ++ cX :: filter (λ e, ¬ isCommitted e) mid ++
      R :: take (length (filter (λ e, isCommitted e) mid)) post ++
      newCommitsMarker oid :: filter (λ e, isCommitted e) mid ++
      drop (length (filter (λ e, isCommitted e) mid)) post).
Proof.
  intros HcX Hmid HR Hpost.
  rewrite insertNewCommitsSinceReview_acts, scanTimeline_review_after by done.
  f_equal. unfold spliceInsert.
  pose proof (length_filter_isCommitted mid) as Hlen.
  set (kept := filter (λ e, ¬ isCommitted e) mid) in *.
  set (moved := filter (λ e, isCommitted e) mid) in *.
  replace (Z.to_nat (Z.of_nat (length (pre ++ cX :: mid) + 1) + 1))
    with (length (e0 :: pre ++ cX :: kept ++ [R]) + length moved) by lengths.
  replace (e0 :: pre ++ cX :: kept ++ R :: post)
    with ((e0 :: pre ++ cX :: kept ++ [R]) ++ post) by reassoc.
  rewrite take_app_add, drop_app_add. reassoc.
Qed.

(** X3: when no commit of the captured oid is met but a review of the
    viewer is, the commits in front of the viewer's last review, the first
    event apart, are removed from the timeline and no marker is inserted. *)
Theorem insertNewCommitsSinceReview_commits_dropped e0 mid R post :
  Forall (λ e, isCommitOf oid e = false) mid →
  isReviewBy user R = true →
  Forall (passedOver oid user) post →
  insertNewCommitsSinceReview (e0 :: mid ++ R :: post) (Some oid) user (Some headRef) =
  Ok (e0 :: filter (λ e, ¬ isCommitted e) mid ++ R :: post).
Proof.
  intros Hmid HR Hpost.
  rewrite insertNewCommitsSinceReview_acts.
  by apply scanTimeline_commits_dropped.
Qed.

(** When neither a commit of the captured oid nor a review of the viewer
    lies behind the first event, the timeline is unchanged. *)
Lemma insertNewCommitsSinceReview_nothing_met e0 post :
  Forall (passedOver oid user) post →
  insertNewCommitsSinceReview (e0 :: post) (Some oid) user (Some headRef) =
  Ok (e0 :: post).
Proof.
  intros Hpost.
  rewrite insertNewCommitsSinceReview_acts.
  by apply scanTimeline_nothing_met.
Qed.

Lemma regroup_found timelineEvents :
  Exists (λ e, isCommitOf oid e = true) (tail timelineEvents) →
  ∃ result,
    insertNewCommitsSinceReview timelineEvents (Some oid) user (Some headRef) =
      Ok result ∧
    result ≡ₚ newCommitsMarker oid :: timelineEvents ∧
    head result = head timelineEvents.
Proof.
  destruct timelineEvents as [| e0 body]; cbn [tail head];
    [by intros ?%Exists_nil |].
  intros Hfound. rewrite insertNewCommitsSinceReview_acts.
  destruct (last_occurrence (isCommitOf oid) body)
    as [(pre & cX & rest & -> & HcX & Hrest) | Hnone].
  2: { exfalso. apply Exists_exists in Hfound as (e & He & Hcommit).
       apply (proj1 (Forall_forall _ _) Hnone) in He. congruence. }
  destruct (last_occurrence (isReviewBy user) rest)
    as [(mid & R & post & -> & HR & Hpost) | Hnone].
  - apply Forall_app in Hrest as [Hmid [_ Hpost']%Forall_cons].
    rewrite scanTimeline_review_after by auto using passedOver_Forall.
    eexists. split; [done |]. split; [| apply spliceInsert_head; lia].
    rewrite spliceInsert_Permutation.
    rewrite <- (filter_app_complement (λ e, isCommitted e) mid) at 3.
    solve_Permutation.
  - rewrite scanTimeline_no_review_after by auto using passedOver_Forall.
    eexists. split; [done |]. split; [| apply spliceInsert_head; lia].
    by rewrite spliceInsert_Permutation.
Qed.

Lemma regroup_not_found timelineEvents :
  Forall (λ e, isCommitOf oid e = false) (tail timelineEvents) →
  ∃ result removed,
    insertNewCommitsSinceReview timelineEvents (Some oid) user (Some headRef) =
      Ok result ∧
    result `sublist_of` timelineEvents ∧
    timelineEvents ≡ₚ removed ++ result ∧
    Forall (λ e, isCommitted e = true) removed ∧
    (Forall (λ e, isReviewBy user e = false) (tail timelineEvents) → removed = []).
Proof.
  destruct timelineEvents as [| e0 body]; cbn [tail].
  { intros _. exists [], []. repeat split; try done.
    unfold insertNewCommitsSinceReview. by repeat case_match. }
  intros Hnone. rewrite insertNewCommitsSinceReview_acts.
  destruct (last_occurrence (isReviewBy user) body)
    as [(mid & R & post & -> & HR & Hpost) | Hnoreview].
  - apply Forall_app in Hnone as [Hmid [_ Hpost']%Forall_cons].
    rewrite scanTimeline_commits_dropped by auto using passedOver_Forall.
    exists (e0 :: filter (λ e, ¬ isCommitted e) mid ++ R :: post),
           (filter (λ e, isCommitted e) mid).
    split_and!.
    + done.
    + apply sublist_skip, sublist_app; [apply sublist_filter | done].
    + rewrite <- (filter_app_complement (λ e, isCommitted e) mid) at 1.
      solve_Permutation.
    + apply Forall_forall. intros e [He _]%list_elem_of_filter.
      by destruct (isCommitted e).
    + intros Hno. exfalso.
      apply Forall_app in Hno as [_ [HR' _]%Forall_cons]. congruence.
  - rewrite scanTimeline_nothing_met by auto using passedOver_Forall.
    by exists (e0 :: body), [].
Qed.

(** X4: when a commit of the captured oid lies behind the first event,
    nothing is lost: the result is a rearrangement of the timeline with one
    marker added, one event longer, and its first event is unchanged. *)
Theorem insertNewCommitsSinceReview_found_Permutation timelineEvents :
  Exists (λ e, isCommitOf oid e = true) (tail timelineEvents) →
  ∃ result,
    insertNewCommitsSinceReview timelineEvents (Some oid) user (Some headRef) =
      Ok result ∧
    result ≡ₚ newCommitsMarker oid :: timelineEvents ∧
    length result = S (length timelineEvents) ∧
    head result = head timelineEvents.
Proof.
  intros Hfound.
  destruct (regroup_found timelineEvents Hfound) as (result & Hresult & Hperm & Hfirst).
  exists result. split_and!; [done | done | | done].
  by rewrite Hperm.
Qed.

(** X5: when no commit of the captured oid lies behind the first event,
    nothing is inserted: the result is the timeline without some of its
    commits, the other events in their order; and nothing is removed unless
    a review of the viewer lies behind the first event. *)
Theorem insertNewCommitsSinceReview_not_found timelineEvents :
  Forall (λ e, isCommitOf oid e = false) (tail timelineEvents) →
  ∃ result removed,
    insertNewCommitsSinceReview timelineEvents (Some oid) user (Some headRef) =
      Ok result ∧
    result `sublist_of` timelineEvents ∧
    timelineEvents ≡ₚ removed ++ result ∧
    Forall (λ e, isCommitted e = true) removed ∧
    (Forall (λ e, isReviewBy user e = false) (tail timelineEvents) →
     result = timelineEvents).
Proof.
  intros Hnone.
  destruct (regroup_not_found timelineEvents Hnone)
    as (result & removed & Hresult & Hsub & Hperm & Hcommits & Hnoreview).
  exists result, removed. split_and!; try done.
  intros Hno. specialize (Hnoreview Hno). subst removed.
  apply sublist_same_length; [done |]. by rewrite Hperm.
Qed.

(** X6: the pass is not idempotent: run again on its own result, with the
    same arguments, it adds a second marker. *)
Theorem insertNewCommitsSinceReview_twice timelineEvents :
  Exists (λ e, isCommitOf oid e = true) (tail timelineEvents) →
  ∃ once twice,
    insertNewCommitsSinceReview timelineEvents (Some oid) user (Some headRef) =
      Ok once ∧
    insertNewCommitsSinceReview once (Some oid) user (Some headRef) = Ok twice ∧
    twice ≡ₚ newCommitsMarker oid :: newCommitsMarker oid :: timelineEvents.
Proof.
  intros Hfound.
  destruct (regroup_found _ Hfound) as (once & Honce & Hperm & Hfirst).
  assert (Hfound' : Exists (λ e, isCommitOf oid e = true) (tail once)).
  { destruct timelineEvents as [| e0 body]; [by apply Exists_nil in Hfound |].
    destruct once as [| e0' body']; [done |].
    simpl in *. injection Hfirst as ->.
    assert (Hbody : body' ≡ₚ newCommitsMarker oid :: body).
    { apply (Permutation_cons_inv (a := e0)). by rewrite Hperm, Permutation_swap. }
    rewrite Hbody. by apply Exists_cons_tl. }
  destruct (regroup_found _ Hfound') as (twice & Htwice & Hperm' & _).
  exists once, twice. split_and!; [done | done |].
  by rewrite Hperm', Hperm.
Qed.

End Regroup.

(** X7: the pass never raises: the index the loop reads is in range
    although the loop deletes from the array it scans. *)
Theorem insertNewCommitsSinceReview_total timelineEvents latestReviewCommitOid
    currentUser head :
  ∃ result,
    insertNewCommitsSinceReview timelineEvents latestReviewCommitOid currentUser head =
      Ok result.
Proof.
  destruct latestReviewCommitOid as [oid |], head as [headRef |];
    try (by eexists).
  destruct (decide (oid = "")) as [-> | Hoid]; [by eexists |].
  destruct (decide (GitHubRef.sha headRef = oid)) as [Hsame | Hhead].
  { exists timelineEvents. unfold insertNewCommitsSinceReview.
    by rewrite Hsame, String.eqb_refl, andb_false_r. }
  destruct (decide (Exists (λ e, isCommitOf oid e = true) (tail timelineEvents)))
    as [Hfound | Hnone].
  - destruct (regroup_found oid currentUser headRef Hoid Hhead _ Hfound)
      as (result & Hresult & _).
    by exists result.
  - destruct (regroup_not_found oid currentUser headRef Hoid Hhead timelineEvents)
      as (result & _ & Hresult & _).
    + apply Forall_forall. intros e He.
      destruct (isCommitOf oid e) eqn:Hcommit; [| done].
      exfalso. apply Hnone, Exists_exists. by exists e.
    + by exists result.
Qed.

(** ** Reviewer-state reconciler: order and origin of the entries *)













Lemma parseReviewers_returns requestedReviewers timelineEvents author :
  IAccount.login author ∉ reviewerId <$> requestedReviewers →
  ∃ reviewers, parseReviewers requestedReviewers timelineEvents author = Ok reviewers.
Proof.
  intros Hout.
  destruct (parseReviewers _ _ _) as [reviewers |] eqn:Hparse; [by eexists |].
  by apply parseReviewers_raises_iff in Hparse.
Qed.




Section Requests.

Context (seen : gmap string bool).

Lemma noteRequest_keeps reviewers request reviewers' id :
  noteRequest seen reviewers request = Ok reviewers' →
  hasRequest id reviewers → hasRequest id reviewers'.
Proof.
  unfold noteRequest. intros Hnote (entry & Hin & Hid & Hstate).
  destruct (negb _).
  { injection Hnote as <-. exists entry. by rewrite elem_of_app; auto. }
  destruct (list_find _ reviewers) as [[i found] |] eqn:Hfind; [| done].
  injection Hnote as <-.
  apply list_find_Some in Hfind as (Hi & _ & _).
  apply list_elem_of_lookup in Hin as [j Hj].
  destruct (decide (i = j)) as [-> | Hne].
  - exists (ReviewState.mk (ReviewState.reviewer found) "REQUESTED").
    assert (found = entry) as -> by congruence.
    split; [| done]. apply list_elem_of_lookup. exists j.
    apply list_lookup_insert_eq. by eapply lookup_lt_Some.
  - exists entry. split; [| done]. apply list_elem_of_lookup. exists j.
    by rewrite list_lookup_insert_ne.
Qed.

Lemma noteRequest_adds reviewers request reviewers' :
  noteRequest seen reviewers request = Ok reviewers' →
  hasRequest (reviewerId request) reviewers'.
Proof.
  unfold noteRequest. intros Hnote.
  destruct (negb _).
  { injection Hnote as <-. exists (ReviewState.mk request "REQUESTED").
    split; [| done]. apply elem_of_app. right. by apply list_elem_of_singleton. }
  destruct (list_find _ reviewers) as [[i found] |] eqn:Hfind; [| done].
  injection Hnote as <-.
  apply list_find_Some in Hfind as (Hi & Hid & _).
  exists (ReviewState.mk (ReviewState.reviewer found) "REQUESTED").
  split; [| done]. apply list_elem_of_lookup. exists i.
  apply list_lookup_insert_eq. by eapply lookup_lt_Some.
Qed.

Lemma noteRequest_other reviewers request reviewers' entry :
  noteRequest seen reviewers request = Ok reviewers' →
  entry ∈ reviewers →
  reviewerId (ReviewState.reviewer entry) ≠ reviewerId request →
  entry ∈ reviewers'.
Proof.
  unfold noteRequest. intros Hnote Hin Hother.
  destruct (negb _).
  { injection Hnote as <-. apply elem_of_app. by left. }
  destruct (list_find _ reviewers) as [[i found] |] eqn:Hfind; [| done].
  injection Hnote as <-.
  apply list_find_Some in Hfind as (Hi & Hid & _).
  apply list_elem_of_lookup in Hin as [j Hj].
  apply list_elem_of_lookup. exists j.
  rewrite list_lookup_insert_ne; [done |]. intros ->. congruence.
Qed.

Lemma forEachRequest_requests requestedReviewers : ∀ reviewers reviewers',
  forEachRequest seen requestedReviewers reviewers = Ok reviewers' →
  (∀ id, hasRequest id reviewers → hasRequest id reviewers') ∧
  (∀ request, request ∈ requestedReviewers →
     hasRequest (reviewerId request) reviewers').
Proof.
  induction requestedReviewers as [| request rest IH]; intros reviewers reviewers'.
  - intros [= <-]. split; [done |]. by intros request ?%elem_of_nil.
  - cbn [forEachRequest].
    destruct (noteRequest seen reviewers request) as [noted |] eqn:Hnote; [| done].
    cbn [mbind Result_bind]. intros Hrest.
    destruct (IH _ _ Hrest) as [Hkeep Hall]. split.
    + intros id Hid. eapply Hkeep, noteRequest_keeps; eauto.
    + intros request' [-> | Hin]%elem_of_cons; [| by apply Hall].
      eapply Hkeep, noteRequest_adds; eauto.
Qed.

Lemma forEachRequest_other requestedReviewers entry : ∀ reviewers reviewers',
  forEachRequest seen requestedReviewers reviewers = Ok reviewers' →
  entry ∈ reviewers →
  reviewerId (ReviewState.reviewer entry) ∉ reviewerId <$> requestedReviewers →
  entry ∈ reviewers'.
Proof.
  induction requestedReviewers as [| request rest IH]; intros reviewers reviewers'.
  - by intros [= <-].
  - cbn [forEachRequest].
    destruct (noteRequest seen reviewers request) as [noted |] eqn:Hnote; [| done].
    cbn [mbind Result_bind]. intros Hrest Hin Hother.
    rewrite fmap_cons, not_elem_of_cons in Hother. destruct Hother as [Hne Hother].
    eapply IH; [done | | done]. eapply noteRequest_other; eauto.
Qed.

End Requests.

(** X9: every requested reviewer ends up with an entry in state REQUESTED,
    whatever reviews the reviewer has left. *)
Theorem parseReviewers_requested requestedReviewers timelineEvents author :
  IAccount.login author ∉ reviewerId <$> requestedReviewers →
  ∃ reviewers,
    parseReviewers requestedReviewers timelineEvents author = Ok reviewers ∧
    ∀ request, request ∈ requestedReviewers →
      hasRequest (reviewerId request) reviewers.
Proof.
  intros Hout.
  destruct (parseReviewers_returns _ timelineEvents _ Hout) as [reviewers Hparse].
  exists reviewers. split; [done |]. revert Hparse. unfold parseReviewers.
  destruct (foldr noteReview _ _) as [seen reviewed].
  destruct (forEachRequest _ _ _) as [requested |] eqn:Hrequested; [| done].
  intros [= <-] request Hin.
  destruct (forEachRequest_requests _ _ _ _ Hrequested) as [_ Hall].
  destruct (Hall request Hin) as (entry & Hentry & Hid & Hstate).
  exists entry. split; [| done]. by rewrite sort_Permutation.
Qed.

Section Latest.

Context (author : string).

(** Each entry the loop over the reviews pushes is the entry of one of the
    reviews. *)
Lemma foldr_noteReview_entries reviews entry :
  entry ∈ (foldr noteReview (<[author := true]> ∅, []) reviews).2 →
  ∃ review, review ∈ reviews ∧ entry = reviewEntry review.
Proof.
  induction reviews as [| review reviews IH]; simpl.
  - by intros ?%elem_of_nil.
  - destruct (foldr noteReview _ reviews) as [seen reviewers]. simpl in *.
    unfold noteReview. destruct (negb _); simpl.
    + intros [Hin | ->%list_elem_of_singleton]%elem_of_app.
      * destruct (IH Hin) as (r & Hr & ->). exists r. by rewrite elem_of_cons; auto.
      * exists review. split; [apply elem_of_cons; by left | done].
    + intros Hin. destruct (IH Hin) as (r & Hr & ->).
      exists r. by rewrite elem_of_cons; auto.
Qed.

Lemma noteReview_keeps review acc entry :
  entry ∈ acc.2 → entry ∈ (noteReview review acc).2.
Proof.
  destruct acc as [seen reviewers]. unfold noteReview. simpl.
  destruct (negb _); simpl; [| done]. intros Hin. apply elem_of_app. by left.
Qed.

Lemma foldr_noteReview_latest reviews login review :
  login ≠ author →
  latestReviewBy login reviews = Some review →
  reviewEntry review ∈ (foldr noteReview (<[author := true]> ∅, []) reviews).2.
Proof.
  intros Hne. unfold latestReviewBy.
  induction reviews as [| r reviews IH]; [done |].
  rewrite filter_cons. cbn [foldr].
  destruct (decide (IAccount.login (ReviewEvent.user r) = login)) as [Hr | Hr].
  - destruct (filter _ reviews) as [| r' later] eqn:Hlater.
    + intros [= <-].
      pose proof (foldr_noteReview_noted author reviews) as (Hseen & _ & _).
      pose proof (foldr_noteReview_entries reviews) as Hentries.
      destruct (foldr noteReview _ reviews) as [seen reviewers]. simpl in *.
      unfold noteReview.
      destruct (seenGet seen (IAccount.login (ReviewEvent.user r))) eqn:Hget; simpl.
      * exfalso. apply Hseen in Hget as [Hauthor | Hin]; [congruence |].
        apply list_elem_of_fmap in Hin as (entry & Hid & Hentry).
        destruct (Hentries entry Hentry) as (r' & Hr' & ->). simpl in Hid.
        assert (Hfiltered : r' ∈ filter (λ review,
                  IAccount.login (ReviewEvent.user review) = login) reviews).
        { apply list_elem_of_filter. split; [congruence | done]. }
        rewrite Hlater in Hfiltered. by apply elem_of_nil in Hfiltered.
      * apply elem_of_app. right. by apply list_elem_of_singleton.
    + intros Hlast. apply noteReview_keeps, IH.
      rewrite <- Hlast. by rewrite last_cons_cons.
  - intros Hlast. by apply noteReview_keeps, IH.
Qed.

End Latest.

(** X10: a reviewer who is neither the author nor requested appears with
    the state of the most recent review that is not pending. *)
Theorem parseReviewers_latest_review requestedReviewers timelineEvents author
    login review :
  IAccount.login author ∉ reviewerId <$> requestedReviewers →
  login ≠ IAccount.login author →
  login ∉ reviewerId <$> requestedReviewers →
  latestReviewBy login (submittedReviews timelineEvents) = Some review →
  ∃ reviewers,
    parseReviewers requestedReviewers timelineEvents author = Ok reviewers ∧
    reviewEntry review ∈ reviewers.
Proof.
  intros Hout Hne Hunrequested Hlatest.
  destruct (parseReviewers_returns _ timelineEvents _ Hout) as [reviewers Hparse].
  exists reviewers. split; [done |]. revert Hparse. unfold parseReviewers.
  pose proof (foldr_noteReview_latest (IAccount.login author)
                (submittedReviews timelineEvents) login review Hne Hlatest)
    as Hentry.
  unfold submittedReviews in Hentry.
  destruct (foldr noteReview _ _) as [seen reviewed]. simpl in Hentry.
  destruct (forEachRequest _ _ _) as [requested |] eqn:Hrequested; [| done].
  intros [= <-]. rewrite sort_Permutation.
  eapply forEachRequest_other; [done | done |].
  simpl. unfold latestReviewBy in Hlatest.
  apply last_Some_elem_of, list_elem_of_filter in Hlatest as [-> _]. done.
Qed.

Section LatestOnly.

Context (author : string).

Lemma foldr_noteReview_seen reviews review :
  review ∈ reviews →
  seenGet (foldr noteReview (<[author := true]> ∅, []) reviews).1
          (IAccount.login (ReviewEvent.user review)) = true.
Proof.
  induction reviews as [| r reviews IH]; [by intros ?%elem_of_nil |].
  cbn [foldr]. destruct (foldr noteReview _ reviews) as [seen reviewers].
  simpl in *. unfold noteReview.
  destruct (seenGet seen (IAccount.login (ReviewEvent.user r))) eqn:Hget; simpl.
  - intros [-> | Hin]%elem_of_cons; [done | by apply IH].
  - intros [-> | Hin]%elem_of_cons; apply seenGet_insert; [by left |].
    right. by apply IH.
Qed.

Lemma foldr_noteReview_only_latest reviews entry :
  entry ∈ (foldr noteReview (<[author := true]> ∅, []) reviews).2 →
  ∃ review,
    latestReviewBy (reviewerId (ReviewState.reviewer entry)) reviews = Some review ∧
    entry = reviewEntry review.
Proof.
  unfold latestReviewBy.
  induction reviews as [| r reviews IH]; [by intros ?%elem_of_nil |].
  cbn [foldr].
  pose proof (foldr_noteReview_seen reviews) as Hseen.
  destruct (foldr noteReview _ reviews) as [seen reviewers]. simpl in *.
  assert (Hold : entry ∈ reviewers →
            ∃ review,
              last (filter (λ review, IAccount.login (ReviewEvent.user review) =
                                      reviewerId (ReviewState.reviewer entry))
                           (r :: reviews)) = Some review ∧
              entry = reviewEntry review).
  { intros Hin. destruct (IH Hin) as (review & Hlast & ->).
    exists review. split; [| done]. rewrite filter_cons.
    case_decide; [| done].
    destruct (filter _ reviews); [done |]. by rewrite last_cons_cons. }
  unfold noteReview.
  destruct (seenGet seen (IAccount.login (ReviewEvent.user r))) eqn:Hget; simpl;
    [done |].
  intros [Hin | ->%list_elem_of_singleton]%elem_of_app; [by apply Hold |].
  exists r. split; [| done]. cbn [reviewEntry ReviewState.reviewer reviewerId].
  rewrite filter_cons, decide_True by done.
  destruct (filter _ reviews) as [| r' later] eqn:Hlater; [done |].
  exfalso.
  assert (Hr' : r' ∈ r' :: later) by (apply elem_of_cons; by left).
  rewrite <- Hlater in Hr'.
  apply list_elem_of_filter in Hr' as [Hlogin Hr'].
  apply Hseen in Hr'. simpl in Hlogin. rewrite Hlogin in Hr'. congruence.
Qed.

End LatestOnly.

Lemma noteRequest_entries seen reviewers request reviewers' entry :
  noteRequest seen reviewers request = Ok reviewers' →
  entry ∈ reviewers' →
  entry ∈ reviewers ∨ ReviewState.state entry = "REQUESTED".
Proof.
  unfold noteRequest. intros Hnote.
  destruct (negb _).
  { injection Hnote as <-.
    intros [Hin | ->%list_elem_of_singleton]%elem_of_app; [by left | by right]. }
  destruct (list_find _ reviewers) as [[i found] |] eqn:Hfind; [| done].
  injection Hnote as <-.
  intros [j Hj]%list_elem_of_lookup.
  destruct (decide (i = j)) as [-> | Hne].
  - right. apply list_lookup_insert_Some in Hj as [(_ & <- & _) | [? _]]; done.
  - left. rewrite list_lookup_insert_ne in Hj by done.
    by eapply list_elem_of_lookup_2.
Qed.

Lemma forEachRequest_entries seen requestedReviewers entry : ∀ reviewers reviewers',
  forEachRequest seen requestedReviewers reviewers = Ok reviewers' →
  entry ∈ reviewers' →
  entry ∈ reviewers ∨ ReviewState.state entry = "REQUESTED".
Proof.
  induction requestedReviewers as [| request rest IH]; intros reviewers reviewers'.
  - intros [= <-]. by left.
  - cbn [forEachRequest].
    destruct (noteRequest seen reviewers request) as [noted |] eqn:Hnote; [| done].
    cbn [mbind Result_bind]. intros Hrest Hin.
    destruct (IH _ _ Hrest Hin) as [Hnoted | Hstate]; [| by right].
    eapply noteRequest_entries; eauto.
Qed.

(** X11: every entry of the result is a review request or the entry of
    the most recent review, not pending, of its reviewer. *)
Theorem parseReviewers_entries_origin requestedReviewers timelineEvents author :
  IAccount.login author ∉ reviewerId <$> requestedReviewers →
  ∃ reviewers,
    parseReviewers requestedReviewers timelineEvents author = Ok reviewers ∧
    ∀ entry, entry ∈ reviewers →
      ReviewState.state entry = "REQUESTED" ∨
      ∃ review,
        latestReviewBy (reviewerId (ReviewState.reviewer entry))
                       (submittedReviews timelineEvents) = Some review ∧
        entry = reviewEntry review.
Proof.
  intros Hout.
  destruct (parseReviewers_returns _ timelineEvents _ Hout) as [reviewers Hparse].
  exists reviewers. split; [done |]. revert Hparse. unfold parseReviewers.
  pose proof (foldr_noteReview_only_latest (IAccount.login author)
                (submittedReviews timelineEvents)) as Hlatest.
  unfold submittedReviews in Hlatest at 1.
  destruct (foldr noteReview _ _) as [seen reviewed]. simpl in Hlatest.
  destruct (forEachRequest _ _ _) as [requested |] eqn:Hrequested; [| done].
  intros [= <-] entry Hentry. rewrite sort_Permutation in Hentry.
  destruct (forEachRequest_entries _ _ _ _ _ Hrequested Hentry) as [Hin | Hstate];
    [right; by apply Hlatest | by left].
Qed.

(** ** Review threads *)

(** X12: every comment of a thread, replies included, is kept in its
    place and takes the resolution state of the thread. *)
Theorem parseGraphQLReviewThread_comments
    (parseDiffHunk : string → list DiffHunk.t) (thread : ReviewThread.t) :
  Forall reactionsKnown (ReviewThreadComments.nodes (ReviewThread.comments thread)) →
  ∃ parsed,
    parseGraphQLReviewThread parseDiffHunk thread = Ok parsed ∧
    IComment.id <$> IReviewThread.comments parsed =
      GraphQL.ReviewComment.databaseId <$>
        ReviewThreadComments.nodes (ReviewThread.comments thread) ∧
    Forall (λ c, IComment.isResolved c = Some (ReviewThread.isResolved thread))
           (IReviewThread.comments parsed) ∧
    IReviewThread.isResolved parsed = ReviewThread.isResolved thread.
Proof.
  unfold parseGraphQLReviewThread.
  generalize (ReviewThread.isResolved thread) as resolved.
  generalize (ReviewThreadComments.nodes (ReviewThread.comments thread)) as nodes.
  intros nodes resolved Hknown.
  assert (Hmap : ∃ comments,
            mapM (λ comment, parseGraphQLComment parseDiffHunk comment resolved)
                 nodes = Ok comments ∧
            IComment.id <$> comments = GraphQL.ReviewComment.databaseId <$> nodes ∧
            Forall (λ c, IComment.isResolved c = Some resolved) comments).
  { induction Hknown as [| comment nodes Hcomment _ (comments & Hcomments & Hids & Hres)].
    - by exists [].
    - destruct (parseGraphQLComment_known parseDiffHunk comment resolved Hcomment)
        as [c Hc].
      exists (c :: comments). cbn [mapM]. rewrite Hc. cbn [mbind Result_bind].
      rewrite Hcomments. cbn [mbind Result_bind mret Result_ret].
      apply parseGraphQLComment_Ok in Hc as (_ & _ & Hresolved & Hid).
      split_and!; [done | by rewrite !fmap_cons, Hids, Hid | by constructor]. }
  destruct Hmap as (comments & -> & Hids & Hres).
  eexists. split; [reflexivity |]. by split_and!.
Qed.

(** X13: the call raises exactly for an unresolved thread without
    comments when a current user is given. *)
Theorem getCommentCollapsibleState_raises thread expand currentUser config :
  getCommentCollapsibleState thread expand currentUser config = TypeError ↔
  IReviewThread.isResolved thread = false ∧
  IReviewThread.comments thread = [] ∧
  ∃ user, currentUser = Some user ∧ user ≠ "".
Proof.
  unfold getCommentCollapsibleState.
  destruct (IReviewThread.isResolved thread); simpl.
  { split; [done | by intros [? _]]. }
  destruct currentUser as [user |]; simpl.
  2: { split; [by destruct expand as [[] |]; try case_bool_decide |].
       by intros (_ & _ & ? & ? & _). }
  destruct (String.eqb_spec user "") as [-> | Hne]; simpl.
  { split; [by destruct expand as [[] |]; try case_bool_decide |].
    by intros (_ & _ & ? & [= <-] & ?). }
  destruct (last (IReviewThread.comments thread)) as [comment |] eqn:Hlast; simpl.
  - split.
    + destruct (_ && _); [done |]. by destruct expand as [[] |]; try case_bool_decide.
    + intros (_ & Hnil & _). by rewrite Hnil in Hlast.
  - apply last_None in Hlast. split; [| done]. intros _.
    split_and!; [done | done |]. by exists user.
Qed.

(** X14: a thread is shown expanded exactly when it is unresolved, its
    last comment is not one of the current user on a line thread, and expansion
    is asked for, by the argument or else by the setting. *)
Theorem getCommentCollapsibleState_Expanded thread expand currentUser config :
  getCommentCollapsibleState thread expand currentUser config = Ok Expanded ↔
  IReviewThread.isResolved thread = false ∧
  match expand with
  | Some expand => expand = true
  | None => config = Some "expandUnresolved"
  end ∧
  (currentUser = None ∨ currentUser = Some "" ∨
   ∃ user comment,
     currentUser = Some user ∧
     last (IReviewThread.comments thread) = Some comment ∧
     ¬ (IAccount.login <$> IComment.user comment = Some user ∧
        IReviewThread.subjectType thread = LINE)).
Proof.
  unfold getCommentCollapsibleState, COMMENT_EXPAND_STATE_EXPAND_VALUE.
  destruct (IReviewThread.isResolved thread); simpl.
  { split; [done | by intros [? _]]. }
  assert (Hexpand : ∀ collapsed : CommentThreadCollapsibleState,
            Ok (if match expand with
                   | Some expand => expand
                   | None => bool_decide (config = Some "expandUnresolved")
                   end then Expanded else Collapsed) = Ok Expanded ↔
            match expand with
            | Some expand => expand = true
            | None => config = Some "expandUnresolved"
            end).
  { intros _. destruct expand as [[] |]; try case_bool_decide;
      split; congruence. }
  specialize (Hexpand Collapsed).
  destruct currentUser as [user |]; simpl.
  2: { rewrite Hexpand. split; [intros ?; split_and!; auto | tauto]. }
  destruct (String.eqb_spec user "") as [-> | Hne]; simpl.
  { rewrite Hexpand. split; [intros ?; split_and!; auto | tauto]. }
  destruct (last (IReviewThread.comments thread)) as [comment |] eqn:Hlast; simpl.
  - destruct (bool_decide (IAccount.login <$> IComment.user comment = Some user))
      eqn:Hlogin;
      destruct (bool_decide (IReviewThread.subjectType thread = LINE)) eqn:Hline;
      simpl; try (apply bool_decide_eq_true in Hlogin);
      try (apply bool_decide_eq_true in Hline);
      try (apply bool_decide_eq_false in Hlogin);
      try (apply bool_decide_eq_false in Hline).
    + split; [done |]. intros (_ & _ & [? | [[= ->] | (u & c & [= <-] & [= <-] & Hnot)]]);
        try done. tauto.
    + rewrite Hexpand. split; [| tauto]. intros He. split_and!; [done | done |].
      right. right. exists user, comment. split_and!; [done | done | tauto].
    + rewrite Hexpand. split; [| tauto]. intros He. split_and!; [done | done |].
      right. right. exists user, comment. split_and!; [done | done | tauto].
    + rewrite Hexpand. split; [| tauto]. intros He. split_and!; [done | done |].
      right. right. exists user, comment. split_and!; [done | done | tauto].
  - split; [done |].
    intros (_ & _ & [? | [[= ->] | (u & c & _ & ? & _)]]); done.
Qed.

(** ** Reaction bar *)

(** X15: the reaction bar always shows the eight reactions of
    [getReactionGroup], in that order, whatever reactions it is given. *)
Theorem generateCommentReactions_labels reactions :
  CommentReaction.label <$> generateCommentReactions reactions =
    ReactionInfo.label <$> getReactionGroup ∧
  length (generateCommentReactions reactions) = 8.
Proof.
  split; [| reflexivity].
  unfold generateCommentReactions. rewrite <- list_fmap_compose.
  apply list_fmap_ext. intros _ reaction _. simpl.
  destruct reactions as [reactions |]; [| done].
  destruct (list_find _ reactions) as [[i matched] |] eqn:Hfind; [| done].
  by apply list_find_Some in Hfind as (_ & Hlabel & _).
Qed.

Lemma reactionContentEmojiMapping_lookup content info :
  reactionContentEmojiMapping !! content = Some info →
  info ∈ getReactionGroup ∧ ReactionInfo.title info = content.
Proof.
  unfold reactionContentEmojiMapping, getReactionGroup. cbn [foldl].
  cbn [ReactionInfo.title]. intros Hlookup.
  repeat (apply lookup_insert_Some in Hlookup as [[<- <-] | [_ Hlookup]];
          [split; [| done]; repeat first [apply list_elem_of_here | apply list_elem_of_further] |]).
  by rewrite lookup_empty in Hlookup.
Qed.

Lemma getReactionGroup_label_inj info info' :
  info ∈ getReactionGroup → info' ∈ getReactionGroup →
  ReactionInfo.label info = ReactionInfo.label info' →
  ReactionInfo.title info = ReactionInfo.title info'.
Proof.
  unfold getReactionGroup. intros Hin Hin'.
  repeat (apply elem_of_cons in Hin as [-> | Hin]);
    try (by apply elem_of_nil in Hin);
    repeat (apply elem_of_cons in Hin' as [-> | Hin']);
    try (by apply elem_of_nil in Hin'); done.
Qed.

Lemma reactionContentEmojiMapping_title info :
  info ∈ getReactionGroup →
  reactionContentEmojiMapping !! ReactionInfo.title info = Some info.
Proof.
  unfold getReactionGroup. intros Hin.
  repeat (apply elem_of_cons in Hin as [-> | Hin]);
    try (by apply elem_of_nil in Hin); by vm_compute.
Qed.


(** X16: after [parseGraphQLReaction], the reaction bar shows for each of the
    eight reactions the count and the viewer's flag of the first group of
    that content that has users, and 0 and [false] when there is none. *)
Theorem generateCommentReactions_parseGraphQLReaction groups :
  Forall (λ group,
            (0 < GraphQL.ReactionUsers.totalCount (GraphQL.ReactionGroup.users group))%Z →
            is_Some (reactionContentEmojiMapping !! GraphQL.ReactionGroup.content group))
         groups →
  ∃ reactions,
    parseGraphQLReaction groups = Ok reactions ∧
    generateCommentReactions (Some reactions) =
      reactionOfGroups groups <$> getReactionGroup.
Proof.
  intros Hknown.
  destruct (parseGraphQLReaction_known groups Hknown) as [reactions Hparse].
  exists reactions. split; [done |]. clear Hknown.
  unfold generateCommentReactions.
  apply list_fmap_ext. intros _ reaction Hreaction%list_elem_of_lookup_2.
  unfold reactionOfGroups, firstGroupOf. revert reactions Hparse.
  unfold parseGraphQLReaction.
  induction groups as [| group groups IH]; intros reactions.
  { by intros [= <-]. }
  rewrite filter_cons.
  destruct (decide (0 < GraphQL.ReactionUsers.totalCount
                          (GraphQL.ReactionGroup.users group))%Z) as [Hpos | Hzero].
  - cbn [mapM].
    destruct (reactionContentEmojiMapping !! GraphQL.ReactionGroup.content group)
      as [info |] eqn:Hinfo; [| done].
    cbn [mbind Result_bind].
    destruct (mapM _ (filter _ groups)) as [rest |] eqn:Hrest; [| done].
    intros [= <-]. specialize (IH rest eq_refl).
    apply reactionContentEmojiMapping_lookup in Hinfo as [Hinfo Htitle].
    cbn [list_find Reaction.label].
    destruct (decide (ReactionInfo.label info = ReactionInfo.label reaction))
      as [Hlabel | Hlabel].
    + rewrite decide_True; [simpl; by rewrite Hlabel |]. split; [done |].
      rewrite <- Htitle. by apply getReactionGroup_label_inj.
    + rewrite decide_False.
      2: { intros [_ Hcontent]. apply Hlabel. rewrite <- Htitle in Hcontent.
           assert (info = reaction) as ->; [| done].
           apply reactionContentEmojiMapping_title in Hinfo, Hreaction.
           rewrite Hcontent in Hinfo. congruence. }
      destruct (list_find _ rest) as [[i matched] |],
               (list_find _ groups) as [[j found] |]; simpl in *; done.
  - intros Hparse. cbn [list_find]. rewrite decide_False by tauto.
    specialize (IH reactions Hparse).
    destruct (list_find _ reactions) as [[i matched] |],
             (list_find _ groups) as [[j found] |]; simpl in *; done.
Qed.

(** ** Related users *)





(** X18: the normaliser never emits the marker of the regrouping pass. *)
Theorem parseGraphQLTimelineEvents_no_marker (events : list GraphQL.TimelineItem.t) :
  Forall (λ e, isMarker e = false) (parseGraphQLTimelineEvents events).
Proof.
  unfold parseGraphQLTimelineEvents. rewrite foldl_pushNormalizedEvent. simpl.
  induction events as [| item events IH]; [done |].
  rewrite bind_cons, Forall_app. split; [| done].
  unfold pushNormalizedEvent.
  destruct (convertGraphQLEventType _); by repeat constructor.
Qed.

(** ** Files and repositories *)








(** ** The theorems at work on sample inputs *)

Ltac by_compute := refine (bool_decide_unpack _ _); vm_compute; exact I.

Lemma insertNewCommitsSinceReview_no_review_after_witness :
  insertNewCommitsSinceReview
    [commitOf "0"; commitOf "X"; reviewBy "V" "APPROVED"; commitOf "Y"]
    (Some "X") "U" (Some (headAt "Y")) =
  Ok [commitOf "0"; commitOf "X"; reviewBy "V" "APPROVED"; commitOf "Y";
      newCommitsMarker "X"].
Proof.
  apply (insertNewCommitsSinceReview_no_review_after "X" "U" (headAt "Y")
           ltac:(done) ltac:(done)
           (commitOf "0") [] (commitOf "X")
           [reviewBy "V" "APPROVED"; commitOf "Y"]).
  - reflexivity.
  - by repeat constructor.
Defined.

Lemma insertNewCommitsSinceReview_review_after_witness :
  insertNewCommitsSinceReview
    [commitOf "0"; commitOf "X"; commitOf "c1"; reviewBy "V" "COMMENTED";
     commitOf "c2"; reviewBy "U" "APPROVED"; commitOf "Y"; commitOf "Z";
     commitOf "W"]
    (Some "X") "U" (Some (headAt "W")) =
  Ok [commitOf "0"; commitOf "X"; reviewBy "V" "COMMENTED";
      reviewBy "U" "APPROVED"; commitOf "Y"; commitOf "Z";
      newCommitsMarker "X"; commitOf "c1"; commitOf "c2"; commitOf "W"].
Proof.
  apply (insertNewCommitsSinceReview_review_after "X" "U" (headAt "W")
           ltac:(done) ltac:(done)
           (commitOf "0") [] (commitOf "X")
           [commitOf "c1"; reviewBy "V" "COMMENTED"; commitOf "c2"]
           (reviewBy "U" "APPROVED")
           [commitOf "Y"; commitOf "Z"; commitOf "W"]).
  - reflexivity.
  - by repeat constructor.
  - reflexivity.
  - by repeat constructor.
Defined.

Lemma insertNewCommitsSinceReview_commits_dropped_witness :
  insertNewCommitsSinceReview
    [commitOf "0"; commitOf "c1"; reviewBy "V" "COMMENTED"; commitOf "c2";
     reviewBy "U" "APPROVED"; commitOf "Y"]
    (Some "X") "U" (Some (headAt "Y")) =
  Ok [commitOf "0"; reviewBy "V" "COMMENTED"; reviewBy "U" "APPROVED";
      commitOf "Y"].
Proof.
  apply (insertNewCommitsSinceReview_commits_dropped "X" "U" (headAt "Y")
           ltac:(done) ltac:(done)
           (commitOf "0")
           [commitOf "c1"; reviewBy "V" "COMMENTED"; commitOf "c2"]
           (reviewBy "U" "APPROVED") [commitOf "Y"]).
  - by repeat constructor.
  - reflexivity.
  - by repeat constructor.
Defined.

Lemma insertNewCommitsSinceReview_found_Permutation_witness :
  ∃ result,
    insertNewCommitsSinceReview
      [commitOf "0"; commitOf "X"; commitOf "c1"; reviewBy "U" "APPROVED";
       commitOf "Y"]
      (Some "X") "U" (Some (headAt "Y")) = Ok result ∧
    result ≡ₚ newCommitsMarker "X" ::
              [commitOf "0"; commitOf "X"; commitOf "c1"; reviewBy "U" "APPROVED";
               commitOf "Y"] ∧
    length result = 6 ∧
    head result = Some (commitOf "0").
Proof.
  apply (insertNewCommitsSinceReview_found_Permutation "X" "U" (headAt "Y")
           ltac:(done) ltac:(done)
           [commitOf "0"; commitOf "X"; commitOf "c1"; reviewBy "U" "APPROVED";
            commitOf "Y"]).
  apply Exists_cons_hd. reflexivity.
Defined.

Lemma insertNewCommitsSinceReview_not_found_witness :
  ∃ result removed,
    insertNewCommitsSinceReview
      [commitOf "0"; commitOf "c1"; reviewBy "U" "APPROVED"; commitOf "Y"]
      (Some "X") "U" (Some (headAt "Y")) = Ok result ∧
    result `sublist_of`
      [commitOf "0"; commitOf "c1"; reviewBy "U" "APPROVED"; commitOf "Y"] ∧
    [commitOf "0"; commitOf "c1"; reviewBy "U" "APPROVED"; commitOf "Y"] ≡ₚ
      removed ++ result ∧
    Forall (λ e, isCommitted e = true) removed.
Proof.
  destruct (insertNewCommitsSinceReview_not_found "X" "U" (headAt "Y")
              ltac:(done) ltac:(done)
              [commitOf "0"; commitOf "c1"; reviewBy "U" "APPROVED"; commitOf "Y"])
    as (result & removed & Hresult & Hsub & Hperm & Hcommits & _).
  - by repeat constructor.
  - by exists result, removed.
Defined.

Lemma insertNewCommitsSinceReview_twice_witness :
  ∃ once twice,
    insertNewCommitsSinceReview
      [commitOf "0"; commitOf "X"; reviewBy "U" "APPROVED"; commitOf "Y"]
      (Some "X") "U" (Some (headAt "Y")) = Ok once ∧
    insertNewCommitsSinceReview once (Some "X") "U" (Some (headAt "Y")) =
      Ok twice ∧
    twice ≡ₚ newCommitsMarker "X" :: newCommitsMarker "X" ::
             [commitOf "0"; commitOf "X"; reviewBy "U" "APPROVED"; commitOf "Y"].
Proof.
  apply (insertNewCommitsSinceReview_twice "X" "U" (headAt "Y")
           ltac:(done) ltac:(done)
           [commitOf "0"; commitOf "X"; reviewBy "U" "APPROVED"; commitOf "Y"]).
  apply Exists_cons_hd. reflexivity.
Defined.


Lemma parseReviewers_requested_witness :
  ∃ reviewers,
    parseReviewers
      [Team (ITeam.mk "zeta" None); Account (accountOf "bob")]
      [reviewBy "carol" "APPROVED"; reviewBy "bob" "APPROVED"]
      (accountOf "me") = Ok reviewers ∧
    hasRequest "zeta" reviewers ∧ hasRequest "bob" reviewers.
Proof.
  destruct (parseReviewers_requested
              [Team (ITeam.mk "zeta" None); Account (accountOf "bob")]
              [reviewBy "carol" "APPROVED"; reviewBy "bob" "APPROVED"]
              (accountOf "me")) as (reviewers & Hparse & Hall).
  - by_compute.
  - exists reviewers. split_and!; [done | |].
    + apply (Hall (Team (ITeam.mk "zeta" None))). apply list_elem_of_here.
    + apply (Hall (Account (accountOf "bob"))).
      apply list_elem_of_further, list_elem_of_here.
Defined.

Lemma parseReviewers_latest_review_witness :
  ∃ reviewers,
    parseReviewers
      [Account (accountOf "bob")]
      [reviewBy "carol" "APPROVED"; reviewBy "bob" "APPROVED";
       reviewBy "carol" "CHANGES_REQUESTED"; reviewBy "carol" "PENDING"]
      (accountOf "me") = Ok reviewers ∧
    reviewEntry (reviewOf "carol" "CHANGES_REQUESTED") ∈ reviewers.
Proof.
  apply (parseReviewers_latest_review
           [Account (accountOf "bob")]
           [reviewBy "carol" "APPROVED"; reviewBy "bob" "APPROVED";
            reviewBy "carol" "CHANGES_REQUESTED"; reviewBy "carol" "PENDING"]
           (accountOf "me") "carol" (reviewOf "carol" "CHANGES_REQUESTED")).
  - by_compute.
  - done.
  - by_compute.
  - vm_compute. reflexivity.
Defined.

Lemma parseReviewers_entries_origin_witness :
  ∃ reviewers,
    parseReviewers
      [Account (accountOf "bob")]
      [reviewBy "carol" "APPROVED"; reviewBy "bob" "APPROVED"]
      (accountOf "me") = Ok reviewers ∧
    ∀ entry, entry ∈ reviewers →
      ReviewState.state entry = "REQUESTED" ∨
      ∃ review,
        latestReviewBy (reviewerId (ReviewState.reviewer entry))
          (submittedReviews
             [reviewBy "carol" "APPROVED"; reviewBy "bob" "APPROVED"]) =
          Some review ∧
        entry = reviewEntry review.
Proof.
  apply parseReviewers_entries_origin. by_compute.
Defined.

Lemma parseGraphQLReviewThread_comments_witness :
  ∃ parsed,
    parseGraphQLReviewThread (λ _, [])
      (reviewThreadOf true
         [reviewCommentOf 11 None None;
          reviewCommentOf 12 None (Some (GraphQL.DatabaseIdRef.mk 11))]) =
      Ok parsed ∧
    IComment.id <$> IReviewThread.comments parsed = [11; 12]%Z ∧
    Forall (λ c, IComment.isResolved c = Some true) (IReviewThread.comments parsed).
Proof.
  destruct (parseGraphQLReviewThread_comments (λ _, [])
              (reviewThreadOf true
                 [reviewCommentOf 11 None None;
                  reviewCommentOf 12 None (Some (GraphQL.DatabaseIdRef.mk 11))]))
    as (parsed & Hparsed & Hids & Hresolved & _).
  - repeat constructor.
  - by exists parsed.
Defined.

Lemma generateCommentReactions_parseGraphQLReaction_witness :
  ∃ reactions,
    parseGraphQLReaction
      [reactionGroupOf "THUMBS_UP" 3 true; reactionGroupOf "SHRUG" 0 false;
       reactionGroupOf "THUMBS_UP" 5 false; reactionGroupOf "ROCKET" 1 false] =
      Ok reactions ∧
    CommentReaction.count <$> generateCommentReactions (Some reactions) =
      [3; 0; 0; 0; 0; 0; 1; 0]%Z.
Proof.
  destruct (generateCommentReactions_parseGraphQLReaction
              [reactionGroupOf "THUMBS_UP" 3 true; reactionGroupOf "SHRUG" 0 false;
               reactionGroupOf "THUMBS_UP" 5 false; reactionGroupOf "ROCKET" 1 false])
    as (reactions & Hparse & Hbar).
  - repeat (constructor; [intros Hpos; first [done | by eexists] |]).
    constructor.
  - exists reactions. split; [done |]. by rewrite Hbar.
Defined.
